(** * pydantic2ts: the command-line script [pydantic2ts/cli/script.py]

    A shallow embedding of the four steps of the script:
    the schema cleanup hook ([clean_schema]), model discovery
    ([extract_pydantic_models] and its predicates), the synthesis of the
    [_Master_] container, and the removal of the container's interface
    from the generated TypeScript file
    ([remove_master_model_from_output]).

    A call that raises is [None] and a call that returns is [Some] of the
    state it leaves behind; where the state left by a raising call
    matters (the schema once the loop of the hook is over, the file
    system), the call yields that state and how it ended. *)

From Stdlib Require Import Ascii.
From stdpp Require Import base option list list_monad strings gmap fin_maps.

(** ** JSON values, as the [Dict[str, Any]] handed to the hook *)

Module Schema.

(** A schema is the Python object pydantic renders before serialisation:
    dicts with string keys, lists, strings, numbers, booleans and [None].
    Dict equality in Python ignores insertion order, as [gmap] does.
    The object is built afresh for each model and no dict occurs in it
    twice, so the in-place updates of the hook are updates of this
    tree. *)
#[warnings="-register-all"]
Inductive json :=
  | JNull
  | JBool (b : bool)
  | JNum (n : Z)
  | JStr (s : string)
  | JArr (items : list json)
  | JObj (fields : gmap string json).

(** [pydantic.Extra] *)
Inductive Extra := allow | ignore | forbid.

Global Instance Extra_eq_dec : EqDecision Extra.
Proof. solve_decision. Defined.

(** [model.Config] is the class [Config] as the body of the model declares
    it, or the one the model inherits when its body declares none
    ([BaseModel]'s, whose [extra] is [Extra.ignore]). Its attribute
    [extra] is there only when that class, or a class it derives from,
    sets it: [class Config: orm_mode = True] has none. *)
Record ModelConfig := { extra : option Extra }.
Record Model := { Config : ModelConfig }.

(** How a call of the hook ends once the loop is over: it returns, or the
    lookup [model.Config.extra] raises [AttributeError]. *)
Inductive outcome := Returned | RaisedAttributeError.

(** [prop.pop('title', None)]: defined on dicts only; on any other value
    the attribute is missing (or, for a list, takes one argument) and the
    call raises. *)
Definition pop (key : string) (prop : json) : option json :=
  match prop with
  | JObj d => Some (JObj (delete key d))
  | _ => None
  end.

(** The body of the [for] loop, threaded through the [properties] dict
    whose entries it mutates in place. *)
Definition pop_title_step (name : string) (prop : json)
    (acc : option (gmap string json)) : option (gmap string json) :=
  props ← acc;
  prop' ← pop "title" prop;
  Some (<[name := prop']> props).

(** [for prop in props.values(): prop.pop('title', None)] *)
Definition pop_titles (props : gmap string json) : option (gmap string json) :=
  map_fold pop_title_step (Some props) props.

(** [schema.get('properties', {}).values()] followed by the loop. A missing
    key gives the fresh empty dict, over which the loop does nothing and
    which is then dropped; a value that is not a dict has no [values]. *)
Definition clean_properties (schema : gmap string json) : option (gmap string json) :=
  match schema !! "properties" with
  | None => Some schema
  | Some (JObj props) =>
      props' ← pop_titles props;
      Some (<["properties" := JObj props']> schema)
  | Some _ => None
  end.

(** [clean_schema(schema, model)]: the schema as the call leaves it, and
    how the call ends. [None] when the loop raises; what the loop has
    popped by then follows the order of the dict, which [gmap] does not
    keep. Past the loop, [model.Config.extra] raises when the attribute
    is missing, the titles being popped already. *)
Definition clean_schema (schema : gmap string json) (model : Model)
    : option (gmap string json * outcome) :=
  schema' ← clean_properties schema;
  match extra (Config model) with
  | None => Some (schema', RaisedAttributeError)
  | Some policy =>
      if decide (policy ≠ allow)
      then Some (<["additionalProperties" := JBool false]> schema', Returned)
      else Some (schema', Returned)
  end.

(** How the call ends on a schema the loop accepts. *)
Definition hook_outcome (model : Model) : outcome :=
  match extra (Config model) with
  | None => RaisedAttributeError
  | Some _ => Returned
  end.

(** The models for which line 26 is reached and run: [model.Config] has
    an [extra], and it is not [Extra.allow]. *)
Definition sets_additionalProperties (model : Model) : Prop :=
  match extra (Config model) with
  | None => False
  | Some policy => policy ≠ allow
  end.

Global Instance sets_additionalProperties_dec model :
  Decision (sets_additionalProperties model).
Proof. unfold sets_additionalProperties. destruct (extra (Config model)); apply _. Defined.

(** What remains of a property entry once its title is popped. *)
Definition without_title (prop : json) : json :=
  match prop with
  | JObj d => JObj (delete "title" d)
  | other => other
  end.

(** What remains of the [properties] dict once the loop is over. *)
Definition without_titles (properties : json) : json :=
  match properties with
  | JObj props => JObj (without_title <$> props)
  | other => other
  end.

Definition is_dict (v : json) : Prop :=
  match v with JObj _ => True | _ => False end.

Global Instance is_dict_dec v : Decision (is_dict v).
Proof. destruct v; simpl; apply _. Defined.

(** A schema object as the framework renders it: when it has a
    [properties] key, that key holds a dict of dicts (one sub-schema per
    field). *)
Definition schema_object (schema : gmap string json) : Prop :=
  match schema !! "properties" with
  | None => True
  | Some (JObj props) => map_Forall (λ _ prop, is_dict prop) props
  | Some _ => False
  end.

Global Instance schema_object_dec schema : Decision (schema_object schema).
Proof.
  unfold schema_object.
  destruct (schema !! "properties") as [[]|]; apply _.
Defined.

(** The schema pydantic renders for [class Foo(BaseModel): a: int], as the
    hook receives it, and the two models of the round-trip scenario:
    [Foo] declares no [Config] and has [BaseModel]'s, [Bar] declares
    [class Config: extra = Extra.allow]. *)
Definition Foo_schema : gmap string json :=
  {[ "title" := JStr "Foo";
     "type" := JStr "object";
     "properties" :=
       JObj {[ "a" := JObj {[ "title" := JStr "A"; "type" := JStr "integer" ]} ]};
     "required" := JArr [JStr "a"] ]}.

Definition Foo : Model := {| Config := {| extra := Some ignore |} |}.
Definition Bar : Model := {| Config := {| extra := Some allow |} |}.

(** [Foo] with [class Config: orm_mode = True] in its body: a [Config]
    that sets no [extra]. *)
Definition OrmFoo : Model := {| Config := {| extra := None |} |}.

End Schema.

(** ** The interpreter's objects, as model discovery inspects them *)

Module Discovery.

(** The identity of an object ([id(obj)]). Modules import one another
    freely, so members are held by identity and the objects live in a
    store. *)
Definition loc := positive.

(** What the script looks at in an object:
    - a module has its [__name__] and its namespace, held as the
      name-sorted list of bindings that [inspect.getmembers] walks;
    - a class has its [__name__] and the classes of its [__mro__] other
      than the class itself;
    - anything else has its [__name__], when it has one. *)
Inductive pyobj :=
  | PyModule (name : string) (members : list (string * loc))
  | PyClass (name : string) (ancestors : list loc)
  | PyOther (name : option string).

(** [s.startswith(prefix)] *)
Definition startswith (s prefix : string) : bool := String.prefix prefix s.

Section Predicates.
(** The store, and the identity of [pydantic.BaseModel] in it. *)
Variable h : gmap loc pyobj.
Variable BaseModel : loc.

(** An identity the store does not hold behaves as an object with no
    attributes; the stores of a running interpreter have none. *)
Definition deref (obj : loc) : pyobj := default (PyOther None) (h !! obj).

(** [obj.__name__], when the attribute exists *)
Definition dunder_name (obj : loc) : option string :=
  match deref obj with
  | PyModule name _ => Some name
  | PyClass name _ => Some name
  | PyOther name => name
  end.

(** [getattr(obj, '__name__', '')] *)
Definition getattr_name (obj : loc) : string := default "" (dunder_name obj).

(** [inspect.ismodule(obj)] *)
Definition ismodule (obj : loc) : bool :=
  match deref obj with PyModule _ _ => true | _ => false end.

(** [inspect.isclass(obj)] *)
Definition isclass (obj : loc) : bool :=
  match deref obj with PyClass _ _ => true | _ => false end.

(** [issubclass(obj, base)]: [base] occurs in the [__mro__] of [obj].
    The script calls it behind [inspect.isclass(obj)] only. *)
Definition issubclass (obj base : loc) : bool :=
  match deref obj with
  | PyClass _ ancestors => bool_decide (obj = base) || bool_decide (base ∈ ancestors)
  | _ => false
  end.

Definition not_private (obj : loc) : bool :=
  negb (startswith (getattr_name obj) "_").

Definition is_submodule (obj : loc) (module_name : string) : bool :=
  not_private obj && ismodule obj
    && startswith (getattr_name obj) (module_name +:+ ".").

Definition is_pydantic_model (obj : loc) : bool :=
  not_private obj && isclass obj && issubclass obj BaseModel
    && negb (bool_decide (obj = BaseModel)).

(** [inspect.getmembers(module, predicate)], on the namespace of the
    module: the bindings whose value satisfies the predicate, in the
    order of their names. *)
Definition getmembers (members : list (string * loc)) (predicate : loc → bool)
    : list (string * loc) :=
  filter (λ member, predicate member.2) members.

(** The values the first loop appends to [models]. *)
Definition direct_models (members : list (string * loc)) : list loc :=
  (getmembers members is_pydantic_model).*2.

(** The values the second loop recurses into. *)
Definition submodules (module_name : string) (members : list (string * loc))
    : list loc :=
  (getmembers members (λ obj, is_submodule obj module_name)).*2.

(** [extract_pydantic_models(module)]. The recursion of the source is
    bounded here by [fuel], the number of nested calls allowed; [None]
    when it runs out, or when [module] has no [__name__] and namespace
    of a module. *)
Fixpoint extract_pydantic_models (fuel : nat) (module : loc) : option (list loc) :=
  match fuel with
  | 0 => None
  | S fuel' =>
      match h !! module with
      | Some (PyModule module_name members) =>
          let models := direct_models members in
          found ← mapM (extract_pydantic_models fuel') (submodules module_name members);
          Some (models ++ concat found)
      | _ => None
      end
  end.

(** The longest [__name__] in the store. Each nested call is on a module
    whose name extends the caller's, so this many calls (and one) are
    never exceeded. *)
Definition longest_name : nat :=
  map_fold (λ obj _ acc, String.length (getattr_name obj) `max` acc) 0 h.

(** [extract_pydantic_models(module)] with the fuel that always suffices. *)
Definition discover (module : loc) : option (list loc) :=
  extract_pydantic_models (S longest_name) module.

(** The modules the recursion visits from [root]: [root] itself, and the
    members a visited module recurses into. *)
Inductive visited (root : loc) : loc → Prop :=
  | visited_root : visited root root
  | visited_sub module module_name members key sub :
      visited root module →
      h !! module = Some (PyModule module_name members) →
      (key, sub) ∈ members →
      is_submodule sub module_name = true →
      visited root sub.

(** A Model reachable from [root]: a member of a visited module that
    passes [is_pydantic_model]. *)
Definition reachable_model (root model : loc) : Prop :=
  ∃ module module_name members key,
    visited root module ∧
    h !! module = Some (PyModule module_name members) ∧
    (key, model) ∈ members ∧
    is_pydantic_model model = true.

(** The condition of the specification for descending into a member:
    the qualifying prefix is the name of the root module. *)
Definition qualifies_under_root (root obj : loc) : bool :=
  not_private obj && ismodule obj
    && startswith (getattr_name obj) (getattr_name root +:+ ".").

(** Discovery as the specification words it: every reachable Model is in
    the list, and the list holds no Model twice. *)
Definition each_model_once (root : loc) : Prop :=
  ∃ models, discover root = Some models ∧
    (∀ model, reachable_model root model → model ∈ models) ∧
    NoDup models.

(** The descent as the specification words it: in every visited module,
    the members recursed into are those that qualify under the name of
    the root. *)
Definition recurses_under_root (root : loc) : Prop :=
  ∀ module module_name members key sub,
    visited root module →
    h !! module = Some (PyModule module_name members) →
    (key, sub) ∈ members →
    sub ∈ submodules module_name members ↔ qualifies_under_root root sub = true.
End Predicates.

(** A package [pkg] whose [__init__] re-exports the model of its
    submodule: [pkg/sub.py] defines [class Foo(BaseModel)],
    [pkg/__init__.py] has [from .sub import Foo]. *)
Definition BaseModel_id : loc := 1%positive.
Definition Foo_id : loc := 2%positive.
Definition pkg_id : loc := 10%positive.
Definition pkg_sub_id : loc := 11%positive.

Definition reexport_store : gmap loc pyobj :=
  {[ BaseModel_id := PyClass "BaseModel" [];
     Foo_id := PyClass "Foo" [BaseModel_id];
     pkg_id := PyModule "pkg" [("Foo", Foo_id); ("sub", pkg_sub_id)];
     pkg_sub_id :=
       PyModule "pkg.sub" [("BaseModel", BaseModel_id); ("Foo", Foo_id)] ]}.

(** A package [pkg] with two submodules, [pkg/a.py] importing its
    sibling ([from pkg import b]) and [pkg/b.py] defining
    [class B(BaseModel)]. *)
Definition B_id : loc := 3%positive.
Definition pkg_a_id : loc := 12%positive.
Definition pkg_b_id : loc := 13%positive.

Definition sibling_store : gmap loc pyobj :=
  {[ BaseModel_id := PyClass "BaseModel" [];
     B_id := PyClass "B" [BaseModel_id];
     pkg_id := PyModule "pkg" [("a", pkg_a_id); ("b", pkg_b_id)];
     pkg_a_id := PyModule "pkg.a" [("b", pkg_b_id)];
     pkg_b_id := PyModule "pkg.b" [("B", B_id); ("BaseModel", BaseModel_id)] ]}.

(** A package whose own name starts with an underscore: [_pkg/__init__.py]
    defines [class Foo(BaseModel)] and imports [_pkg.sub], which defines
    [class B(BaseModel)]. *)
Definition private_root_store : gmap loc pyobj :=
  {[ BaseModel_id := PyClass "BaseModel" [];
     Foo_id := PyClass "Foo" [BaseModel_id];
     B_id := PyClass "B" [BaseModel_id];
     pkg_id :=
       PyModule "_pkg"
         [("BaseModel", BaseModel_id); ("Foo", Foo_id); ("sub", pkg_sub_id)];
     pkg_sub_id := PyModule "_pkg.sub" [("B", B_id); ("BaseModel", BaseModel_id)] ]}.

(** A package [pkg] with the submodule [pkg/_private.py], which defines
    [class B(BaseModel)]. *)
Definition private_sub_store : gmap loc pyobj :=
  {[ BaseModel_id := PyClass "BaseModel" [];
     B_id := PyClass "B" [BaseModel_id];
     pkg_id := PyModule "pkg" [("_private", pkg_sub_id)];
     pkg_sub_id := PyModule "pkg._private" [("B", B_id); ("BaseModel", BaseModel_id)] ]}.

(** A package whose submodules import the package and each other:
    [pkg/a.py] has [import pkg] and [from pkg import b], [pkg/b.py]
    defines [class B(BaseModel)] and has [import pkg] and
    [from pkg import a]. *)
Definition cyclic_store : gmap loc pyobj :=
  {[ BaseModel_id := PyClass "BaseModel" [];
     B_id := PyClass "B" [BaseModel_id];
     pkg_id := PyModule "pkg" [("a", pkg_a_id); ("b", pkg_b_id)];
     pkg_a_id := PyModule "pkg.a" [("b", pkg_b_id); ("pkg", pkg_id)];
     pkg_b_id :=
       PyModule "pkg.b"
         [("B", B_id); ("BaseModel", BaseModel_id); ("a", pkg_a_id); ("pkg", pkg_id)] ]}.

End Discovery.

(** ** The [_Master_] container built in [main] *)

Module Synthesis.
Import Discovery.

(** The default of a field definition: [Ellipsis] is Python's [...], by
    which pydantic marks a field as required; anything else is a value
    the field falls back on. *)
Inductive field_default := Ellipsis | DefaultValue.

(** [d[key] = value] on a dict, which keeps the order of first insertion:
    a present key keeps its place and takes the new value, a new key goes
    last. *)
Fixpoint dict_setitem {V} (key : string) (value : V) (d : list (string * V))
    : list (string * V) :=
  match d with
  | [] => [(key, value)]
  | (key', value') :: d' =>
      if decide (key = key') then (key, value) :: d'
      else (key', value') :: dict_setitem key value d'
  end.

(** [d[key]], when present *)
Fixpoint dict_get {V} (key : string) (d : list (string * V)) : option V :=
  match d with
  | [] => None
  | (key', value) :: d' => if decide (key = key') then Some value else dict_get key d'
  end.

(** A field of a model, and the container: its name and its fields in
    order. *)
Record field := {
  field_name : string;
  field_type : loc;
  field_required : bool;
}.

Record container := {
  container_name : string;
  container_fields : list field;
}.

Section Container.
Variable h : gmap loc pyobj.

(** [{m.__name__: (m, ...) for m in models}] *)
Definition field_definitions (models : list loc)
    : option (list (string * (loc * field_default))) :=
  foldl (λ acc m,
           d ← acc;
           name ← dunder_name h m;
           Some (dict_setitem name (m, Ellipsis) d))
        (Some []) models.

(** Modelled from the spec: [create_model] is pydantic's, not part of
    this repository. One field per keyword, in the order given, named
    by the keyword, typed by the first component of its definition and
    required when the second is [...]. *)
Definition create_model (name : string)
    (definitions : list (string * (loc * field_default))) : container :=
  {| container_name := name;
     container_fields :=
       (λ kw, {| field_name := kw.1;
                 field_type := kw.2.1;
                 field_required :=
                   match kw.2.2 with Ellipsis => true | DefaultValue => false end |})
       <$> definitions |}.

(** [create_model('_Master_', **{m.__name__: (m, ...) for m in models})] *)
Definition master_model (models : list loc) : option container :=
  create_model "_Master_" <$> field_definitions models.

(** The last Model of the list whose [__name__] is [name]: the one whose
    definition the comprehension keeps. *)
Definition last_named (name : string) (models : list loc) : option loc :=
  last (filter (λ m, dunder_name h m = Some name) models).

(** The container as the specification words it: every Model of the
    list has a field named by its class name, typed as that Model and
    required. *)
Definition one_field_per_model (models : list loc) : Prop :=
  ∃ master, master_model models = Some master ∧
    ∀ m, m ∈ models →
      ∃ name, dunder_name h m = Some name ∧
        {| field_name := name; field_type := m; field_required := true |}
          ∈ container_fields master.
End Container.

(** Two submodules that each define a model called [Foo]:
    [pkg/a.py] and [pkg/b.py] both have [class Foo(BaseModel)]. *)
Definition Foo_a_id : loc := 4%positive.
Definition Foo_b_id : loc := 5%positive.

Definition collision_store : gmap loc pyobj :=
  {[ BaseModel_id := PyClass "BaseModel" [];
     Foo_a_id := PyClass "Foo" [BaseModel_id];
     Foo_b_id := PyClass "Foo" [BaseModel_id];
     pkg_id := PyModule "pkg" [("a", pkg_a_id); ("b", pkg_b_id)];
     pkg_a_id := PyModule "pkg.a" [("BaseModel", BaseModel_id); ("Foo", Foo_a_id)];
     pkg_b_id := PyModule "pkg.b" [("BaseModel", BaseModel_id); ("Foo", Foo_b_id)] ]}.

End Synthesis.

(** ** Removing the container's interface from the generated file *)

Module Output.

Definition LF : ascii := "010"%char.
Definition CR : ascii := "013"%char.

(** Reading in text mode with the default [newline=None]: the line ends
    CR LF and CR both arrive as LF. *)
Fixpoint universal_newlines (raw : string) : string :=
  match raw with
  | EmptyString => EmptyString
  | String c rest =>
      if decide (c = CR) then
        match rest with
        | String c' rest' =>
            if decide (c' = LF) then String LF (universal_newlines rest')
            else String LF (universal_newlines rest)
        | EmptyString => String LF EmptyString
        end
      else String c (universal_newlines rest)
  end.

(** [f.readlines()]: the text cut after each LF, every line keeping its
    terminator, the last one having none when the text does not end in
    LF. *)
Fixpoint readlines (text : string) : list string :=
  match text with
  | EmptyString => []
  | String c rest =>
      if decide (c = LF) then String c EmptyString :: readlines rest
      else match readlines rest with
           | [] => [String c EmptyString]
           | line :: lines => String c line :: lines
           end
  end.

(** [line.rstrip('\r\n')]: the line without its trailing run of CR and LF
    characters. *)
Fixpoint rstrip_crlf (line : string) : string :=
  match line with
  | EmptyString => EmptyString
  | String c rest =>
      match rstrip_crlf rest with
      | EmptyString =>
          if decide (c = CR ∨ c = LF) then EmptyString else String c EmptyString
      | kept => String c kept
      end
  end.

Definition master_start : string := "export interface _Master_ {".
Definition master_end : string := "}".

(** The [for i, line in enumerate(lines)] loop, from line [i] on with
    [start] as found so far; it returns [(start, end)] as they stand when
    the loop is left, by [break] or by exhaustion. *)
Fixpoint scan (lines : list string) (i : nat) (start : option nat)
    : option nat * option nat :=
  match lines with
  | [] => (start, None)
  | line :: rest =>
      if decide (rstrip_crlf line = master_start) then scan rest (S i) (Some i)
      else if decide (is_Some start ∧ rstrip_crlf line = master_end) then (start, Some i)
      else scan rest (S i) start
  end.

(** [lines[:start]]; a bound of [None] is no bound. *)
Definition slice_to (lines : list string) (start : option nat) : list string :=
  match start with
  | None => lines
  | Some s => take s lines
  end.

(** [lines[(end + 1):]]; [None + 1] is a [TypeError]. *)
Definition slice_after (lines : list string) (end_ : option nat) : option (list string) :=
  e ← end_;
  Some (drop (e + 1) lines).

(** [new_lines], from [start, end = None, None] to the concatenation. *)
Definition new_lines (lines : list string) : option (list string) :=
  let '(start, end_) := scan lines 0 None in
  let before := slice_to lines start in
  after ← slice_after lines end_;
  Some (before ++ after).

Inductive exn := FileNotFoundError | TypeError.

(** How a call ends. *)
Inductive outcome := Returned | Raised (e : exn).

Section Files.
(** [os.linesep]: writing in text mode turns every LF into it. *)
Variable linesep : string.

Fixpoint write_newlines (text : string) : string :=
  match text with
  | EmptyString => EmptyString
  | String c rest =>
      if decide (c = LF) then linesep +:+ write_newlines rest
      else String c (write_newlines rest)
  end.

(** [f.writelines(lines)] on a file opened with ['w']: the file holds
    the lines one after the other and nothing else. *)
Definition writelines (lines : list string) : string :=
  write_newlines (String.concat "" lines).

(** [remove_master_model_from_output(output)] on a file system that
    maps paths to the text of the file: the file system it leaves and
    how it ends. Opening a missing file raises, as does [end + 1] when
    [end] was never set; in both cases the file has not yet been opened
    for writing. *)
Definition remove_master_model_from_output (output : string)
    (fs : gmap string string) : gmap string string * outcome :=
  match fs !! output with
  | None => (fs, Raised FileNotFoundError)
  | Some raw =>
      let lines := readlines (universal_newlines raw) in
      match new_lines lines with
      | None => (fs, Raised TypeError)
      | Some new => (<[output := writelines new]> fs, Returned)
      end
  end.
End Files.

(** A line of the file whose text is [content], with or without the LF
    that ends it. *)
Definition line_is (content line : string) : Prop :=
  line = content ∨ line = content +:+ String LF EmptyString.

Global Instance line_is_dec content line : Decision (line_is content line).
Proof. unfold line_is. apply _. Defined.

(** The removal as the specification words it: whenever the lines have a
    first start line [s] and, after it, a first closing brace [e], the
    file is left with the lines before [s] followed by the lines after
    [e]. *)
Definition removes_first_block (linesep output : string)
    (fs : gmap string string) : Prop :=
  ∀ raw before s block e after,
    fs !! output = Some raw →
    readlines (universal_newlines raw) = before ++ s :: block ++ e :: after →
    Forall (λ line, ¬ line_is master_start line) before →
    line_is master_start s →
    Forall (λ line, ¬ line_is master_end line) block →
    line_is master_end e →
    remove_master_model_from_output linesep output fs
    = (<[output := writelines linesep (before ++ after)]> fs, Returned).

(** The missing container as the specification words it: the call
    completes and writes the file back. *)
Definition completes_silently (linesep output : string)
    (fs : gmap string string) : Prop :=
  ∃ text,
    remove_master_model_from_output linesep output fs
    = (<[output := text]> fs, Returned).

Fixpoint chars_Forall (P : ascii → Prop) (s : string) : Prop :=
  match s with
  | EmptyString => True
  | String c rest => P c ∧ chars_Forall P rest
  end.

(** A text without line terminators. *)
Definition plain (s : string) : Prop := chars_Forall (λ c, c ≠ CR ∧ c ≠ LF) s.

(** The line separator of POSIX systems. *)
Definition posix_linesep : string := String LF EmptyString.

(** A generated file in which the container comes first, and one that
    has no container at all. *)
Definition generated_ts : string :=
  "/* tslint:disable */" +:+ posix_linesep +:+
  "export interface _Master_ {" +:+ posix_linesep +:+
  "  Foo: Foo;" +:+ posix_linesep +:+
  "}" +:+ posix_linesep +:+
  "export interface Foo {" +:+ posix_linesep +:+
  "  a: number;" +:+ posix_linesep +:+
  "}" +:+ posix_linesep.

Definition no_container_ts : string :=
  "export interface Foo {" +:+ posix_linesep +:+
  "  a: number;" +:+ posix_linesep +:+
  "}" +:+ posix_linesep.

(** A text in which the start line comes twice before the closing
    brace. *)
Definition two_starts_ts : string :=
  "export interface _Master_ {" +:+ posix_linesep +:+
  "export interface _Master_ {" +:+ posix_linesep +:+
  "}" +:+ posix_linesep.

(** The line separator of Windows. *)
Definition windows_linesep : string := String CR (String LF EmptyString).

(** The generated file with the line ends of Windows. *)
Definition generated_crlf_ts : string :=
  "/* tslint:disable */" +:+ windows_linesep +:+
  "export interface _Master_ {" +:+ windows_linesep +:+
  "  Foo: Foo;" +:+ windows_linesep +:+
  "}" +:+ windows_linesep +:+
  "export interface Foo {" +:+ windows_linesep +:+
  "  a: number;" +:+ windows_linesep +:+
  "}" +:+ windows_linesep.

(** A line that [readlines] cuts at its LF, and a last line that the end
    of the text cuts. *)
Definition terminated (line : string) : Prop :=
  ∃ body, chars_Forall (λ c, c ≠ LF) body ∧ line = body +:+ String LF EmptyString.

Definition unterminated (line : string) : Prop :=
  chars_Forall (λ c, c ≠ LF) line ∧ line ≠ EmptyString.

(** The lists [readlines] returns: terminated lines, the last of which
    may be unterminated. *)
Inductive cut : list string → Prop :=
  | cut_nil : cut []
  | cut_last line : unterminated line → cut [line]
  | cut_cons line lines : terminated line → cut lines → cut (line :: lines).

End Output.

(** * Properties of the cleanup hook *)

Section CleanSchema.
Import Schema.
Implicit Types (schema props entry : gmap string json) (model : Model).

Lemma pop_title_fold init props :
  (map_Forall (λ _ prop, is_dict prop) props →
     map_fold pop_title_step (Some init) props
     = Some ((without_title <$> props) ∪ init))
  ∧ (is_Some (map_fold pop_title_step (Some init) props) →
     map_Forall (λ _ prop, is_dict prop) props).
Proof.
  apply (map_fold_weak_ind (λ r m,
    (map_Forall (λ _ prop, is_dict prop) m →
       r = Some ((without_title <$> m) ∪ init))
    ∧ (is_Some r → map_Forall (λ _ prop, is_dict prop) m))).
  - split; [intros _|intros _; apply map_Forall_empty].
    by rewrite fmap_empty, (left_id_L ∅ (∪)).
  - intros name prop m r Hfresh [IHok IHinv]. split.
    + intros Hall. apply map_Forall_insert in Hall as [Hprop Hall]; [|done].
      rewrite (IHok Hall). destruct prop; try done. simpl.
      by rewrite fmap_insert, insert_union_l.
    + intros [acc Hacc]. unfold pop_title_step in Hacc.
      destruct r as [done_|]; [|done]. simpl in Hacc.
      destruct prop; try done.
      apply map_Forall_insert_2; [done|]. apply IHinv. by eexists.
Qed.

Lemma pop_titles_dicts props :
  map_Forall (λ _ prop, is_dict prop) props →
  pop_titles props = Some (without_title <$> props).
Proof.
  intros Hall. unfold pop_titles.
  rewrite (proj1 (pop_title_fold props props) Hall). f_equal.
  apply map_eq; intros name.
  rewrite lookup_union, lookup_fmap. by destruct (props !! name).
Qed.

Lemma pop_titles_raises props :
  ¬ map_Forall (λ _ prop, is_dict prop) props → pop_titles props = None.
Proof.
  intros Hnot. destruct (pop_titles props) eqn:Hrun; [|done].
  destruct Hnot. eapply pop_title_fold. by eexists.
Qed.

Lemma clean_properties_schema_object schema :
  schema_object schema →
  clean_properties schema = Some (alter without_titles "properties" schema).
Proof.
  unfold schema_object, clean_properties. intros Hobj.
  destruct (schema !! "properties") as [[| | | | |props]|] eqn:Hprops; try done.
  - rewrite (pop_titles_dicts _ Hobj). simpl. f_equal.
    apply map_eq; intros key. rewrite lookup_alter, lookup_insert.
    case_decide; subst; by rewrite ?Hprops.
  - f_equal. apply map_eq; intros key. rewrite lookup_alter.
    case_decide; subst; by rewrite ?Hprops.
Qed.

(** The loop accepts exactly the schema objects. *)
Lemma clean_schema_loop_iff schema model :
  is_Some (clean_schema schema model) ↔ schema_object schema.
Proof.
  split.
  - intros [result Hrun]. unfold clean_schema, clean_properties in Hrun.
    unfold schema_object.
    destruct (schema !! "properties") as [[| | | | |props]|]; try done.
    destruct (decide (map_Forall (λ _ prop, is_dict prop) props)) as [|Hnot]; [done|].
    by rewrite (pop_titles_raises _ Hnot) in Hrun.
  - intros Hobj. unfold clean_schema.
    rewrite (clean_properties_schema_object _ Hobj). simpl.
    destruct (extra (Config model)) as [policy|]; [|by eexists].
    case_decide; by eexists.
Qed.

(** The state the hook leaves, key by key, and how it ends. *)
Lemma clean_schema_lookup schema model :
  schema_object schema →
  ∃ schema', clean_schema schema model = Some (schema', hook_outcome model) ∧
    ∀ key, schema' !! key =
      if decide (key = "additionalProperties" ∧ sets_additionalProperties model)
      then Some (JBool false)
      else if decide (key = "properties") then without_titles <$> schema !! key
      else schema !! key.
Proof.
  intros Hobj. unfold clean_schema, hook_outcome.
  rewrite (clean_properties_schema_object _ Hobj). simpl.
  assert (∀ key, alter without_titles "properties" schema !! key
                 = if decide (key = "properties") then without_titles <$> schema !! key
                   else schema !! key) as Halter.
  { intros key. rewrite lookup_alter.
    destruct (decide (key = "properties")) as [->|Hprops];
      [by rewrite decide_True | by rewrite decide_False]. }
  destruct (extra (Config model)) as [policy|] eqn:Hextra.
  - destruct (decide (policy ≠ allow)) as [Hpolicy|Hpolicy];
      eexists; (split; [done|]); intros key.
    + rewrite lookup_insert.
      destruct (decide (key = "additionalProperties")) as [->|Hkey].
      * rewrite decide_True by done.
        by rewrite decide_True
          by (split; [done|]; unfold sets_additionalProperties; by rewrite Hextra).
      * rewrite (decide_False (P := "additionalProperties" = key)) by done.
        rewrite (decide_False (P := key = _ ∧ _)) by tauto. apply Halter.
    + rewrite (decide_False (P := key = _ ∧ _)); [apply Halter|].
      unfold sets_additionalProperties. rewrite Hextra. tauto.
  - eexists. split; [done|]. intros key.
    rewrite (decide_False (P := key = _ ∧ _)); [apply Halter|].
    unfold sets_additionalProperties. rewrite Hextra. tauto.
Qed.

Lemma without_titles_idemp v : without_titles (without_titles v) = without_titles v.
Proof.
  destruct v as [| | | | |props]; try done. simpl. f_equal.
  rewrite <-map_fmap_compose. apply map_fmap_ext. intros name prop _.
  destruct prop; try done. simpl. by rewrite delete_delete_eq.
Qed.

Lemma schema_object_lookup schema schema' :
  schema_object schema →
  schema' !! "properties" = without_titles <$> schema !! "properties" →
  schema_object schema'.
Proof.
  unfold schema_object. intros Hobj ->.
  destruct (schema !! "properties") as [[| | | | |props]|]; try done. simpl.
  apply map_Forall_fmap. eapply map_Forall_impl; [exact Hobj|].
  intros name prop. by destruct prop.
Qed.

(** C6: on every schema object, running the hook on the state left by
    a first run leaves that same state and ends the same way. *)
Theorem clean_schema_idempotent schema model :
  schema_object schema →
  ∃ schema', clean_schema schema model = Some (schema', hook_outcome model) ∧
    clean_schema schema' model = Some (schema', hook_outcome model).
Proof.
  intros Hobj. destruct (clean_schema_lookup schema model Hobj) as (schema1 & Hrun1 & Hkeys1).
  exists schema1. split; [done|].
  assert (schema_object schema1) as Hobj1.
  { apply (schema_object_lookup schema); [done|]. by rewrite Hkeys1. }
  destruct (clean_schema_lookup schema1 model Hobj1) as (schema2 & Hrun2 & Hkeys2).
  rewrite Hrun2. do 2 f_equal. apply map_eq; intros key.
  rewrite Hkeys2, !Hkeys1.
  destruct (decide (key = "additionalProperties" ∧ _)); [done|].
  destruct (decide (key = "properties")); [|done].
  destruct (schema !! key); [|done]. simpl. by rewrite without_titles_idemp.
Qed.

(** C7: on every schema object the loop goes through; in the state the
    call leaves, each entry of ["properties"] is still there, without
    its ["title"] (the entry is unchanged when it had none), and every
    other key of the entry holds the value it held, nested schemas
    included; the top-level keys other than ["properties"] and
    ["additionalProperties"], among them the definitions the schema
    refers to, hold what they held. *)
Theorem clean_schema_titles schema model :
  schema_object schema →
  ∃ schema', clean_schema schema model = Some (schema', hook_outcome model) ∧
    (∀ props, schema !! "properties" = Some (JObj props) →
       ∃ props', schema' !! "properties" = Some (JObj props') ∧
         dom props' = dom props ∧
         ∀ name entry, props !! name = Some (JObj entry) →
           ∃ entry', props' !! name = Some (JObj entry') ∧
             entry' !! "title" = None ∧
             (entry !! "title" = None → entry' = entry) ∧
             (∀ key, key ≠ "title" → entry' !! key = entry !! key)) ∧
    (∀ key, key ≠ "properties" → key ≠ "additionalProperties" →
       schema' !! key = schema !! key).
Proof.
  intros Hobj. destruct (clean_schema_lookup schema model Hobj) as (schema' & Hrun & Hkeys).
  exists schema'. split; [done|]. split.
  - intros props Hprops. exists (without_title <$> props).
    split; [by rewrite Hkeys, Hprops|]. split; [apply dom_fmap_L|].
    intros name entry Hentry. exists (delete "title" entry).
    rewrite lookup_fmap, Hentry. split; [done|].
    split; [apply lookup_delete_eq|]. split; [apply delete_id|].
    intros key Hkey. by apply lookup_delete_ne.
  - intros key Hprops Hap. rewrite Hkeys.
    rewrite decide_False by tauto. by rewrite decide_False.
Qed.

(** C10: on every schema object the loop goes through; in the state the
    call leaves, every top-level key other than ["additionalProperties"]
    and ["properties"] holds what it held; ["properties"] is present
    exactly when it was, with the same entry names, and in each entry
    every key other than ["title"] holds what it held. *)
Theorem clean_schema_frame schema model :
  schema_object schema →
  ∃ schema', clean_schema schema model = Some (schema', hook_outcome model) ∧
    (∀ key, key ≠ "additionalProperties" → key ≠ "properties" →
       schema' !! key = schema !! key) ∧
    (schema !! "properties" = None → schema' !! "properties" = None) ∧
    (∀ props, schema !! "properties" = Some (JObj props) →
       ∃ props', schema' !! "properties" = Some (JObj props') ∧
         (∀ name, is_Some (props' !! name) ↔ is_Some (props !! name)) ∧
         ∀ name after, props' !! name = Some after →
           ∃ fields fields', props !! name = Some (JObj fields) ∧
             after = JObj fields' ∧
             ∀ key, key ≠ "title" → fields' !! key = fields !! key).
Proof.
  intros Hobj. destruct (clean_schema_lookup schema model Hobj) as (schema' & Hrun & Hkeys).
  exists schema'. split; [done|]. split; [|split].
  - intros key Hap Hprops. rewrite Hkeys.
    rewrite decide_False by tauto. by rewrite decide_False.
  - intros Hnone. by rewrite Hkeys, Hnone.
  - intros props Hprops. exists (without_title <$> props).
    split; [by rewrite Hkeys, Hprops|]. split.
    + intros name. by rewrite lookup_fmap, fmap_is_Some.
    + intros name after. rewrite lookup_fmap.
      destruct (props !! name) as [prop|] eqn:Hprop; [|done].
      intros [= <-]. unfold schema_object in Hobj. rewrite Hprops in Hobj.
      specialize (Hobj name prop Hprop). destruct prop as [| | | | |fields]; try done.
      exists fields, (delete "title" fields). do 2 (split; [done|]).
      intros key Hkey. by apply lookup_delete_ne.
Qed.
End CleanSchema.

(** The theorems above at the schema of [Foo], under the default policy,
    under [allow] and under a [Config] without [extra]. *)
Section CleanSchemaInstances.
Import Schema.

(** C3, where the code departs from it: [OrmFoo] sets no [extra] in its
    [Config], so that its policy is the default, [ignore], and not
    [allow]. On the schema of [Foo] the hook pops the title of the
    property and then raises [AttributeError] at [model.Config.extra]:
    ["additionalProperties"] is not set to [false], as it is for [Foo]
    itself, whose [Config] is [BaseModel]'s. *)
Theorem clean_schema_missing_extra :
  schema_object Foo_schema ∧
  clean_schema Foo_schema OrmFoo
  = Some ({[ "title" := JStr "Foo";
             "type" := JStr "object";
             "properties" := JObj {[ "a" := JObj {[ "type" := JStr "integer" ]} ]};
             "required" := JArr [JStr "a"] ]},
          RaisedAttributeError) ∧
  clean_schema Foo_schema Foo
  = Some ({[ "title" := JStr "Foo";
             "type" := JStr "object";
             "properties" := JObj {[ "a" := JObj {[ "type" := JStr "integer" ]} ]};
             "required" := JArr [JStr "a"];
             "additionalProperties" := JBool false ]},
          Returned).
Proof.
  split; [apply (bool_decide_unpack _); vm_compute; exact I|].
  split; vm_compute; reflexivity.
Qed.

Lemma clean_schema_idempotent_Foo :
  schema_object Foo_schema ∧
  ∃ schema', clean_schema Foo_schema Bar = Some (schema', hook_outcome Bar) ∧
    clean_schema schema' Bar = Some (schema', hook_outcome Bar).
Proof.
  assert (schema_object Foo_schema) as Hobj
    by (apply (bool_decide_unpack _); vm_compute; exact I).
  split; [exact Hobj|]. exact (clean_schema_idempotent Foo_schema Bar Hobj).
Defined.

Lemma clean_schema_titles_Foo :
  schema_object Foo_schema ∧
  ∃ schema', clean_schema Foo_schema Foo = Some (schema', hook_outcome Foo) ∧
    (∀ props, Foo_schema !! "properties" = Some (JObj props) →
       ∃ props', schema' !! "properties" = Some (JObj props') ∧
         dom props' = dom props ∧
         ∀ name entry, props !! name = Some (JObj entry) →
           ∃ entry', props' !! name = Some (JObj entry') ∧
             entry' !! "title" = None ∧
             (entry !! "title" = None → entry' = entry) ∧
             (∀ key, key ≠ "title" → entry' !! key = entry !! key)) ∧
    (∀ key, key ≠ "properties" → key ≠ "additionalProperties" →
       schema' !! key = Foo_schema !! key).
Proof.
  assert (schema_object Foo_schema) as Hobj
    by (apply (bool_decide_unpack _); vm_compute; exact I).
  split; [exact Hobj|]. exact (clean_schema_titles Foo_schema Foo Hobj).
Defined.

Lemma clean_schema_frame_Foo :
  schema_object Foo_schema ∧
  ∃ schema', clean_schema Foo_schema Foo = Some (schema', hook_outcome Foo) ∧
    (∀ key, key ≠ "additionalProperties" → key ≠ "properties" →
       schema' !! key = Foo_schema !! key) ∧
    (Foo_schema !! "properties" = None → schema' !! "properties" = None) ∧
    (∀ props, Foo_schema !! "properties" = Some (JObj props) →
       ∃ props', schema' !! "properties" = Some (JObj props') ∧
         (∀ name, is_Some (props' !! name) ↔ is_Some (props !! name)) ∧
         ∀ name after, props' !! name = Some after →
           ∃ fields fields', props !! name = Some (JObj fields) ∧
             after = JObj fields' ∧
             ∀ key, key ≠ "title" → fields' !! key = fields !! key).
Proof.
  assert (schema_object Foo_schema) as Hobj
    by (apply (bool_decide_unpack _); vm_compute; exact I).
  split; [exact Hobj|]. exact (clean_schema_frame Foo_schema Foo Hobj).
Defined.
End CleanSchemaInstances.

(** * Properties of model discovery *)

Section DiscoveryFacts.
Import Discovery.
Context (h : gmap loc pyobj) (BaseModel : loc).
Implicit Types (obj module sub model root : loc) (members : list (string * loc)).

Lemma string_app_cons c (s t : string) : String c s +:+ t = String c (s +:+ t).
Proof. reflexivity. Qed.

Lemma startswith_app s prefix :
  startswith s prefix = true ↔ ∃ rest, s = prefix +:+ rest.
Proof.
  unfold startswith. revert s. induction prefix as [|c prefix IH]; intros s.
  - split; [intros _; by exists s|]. by destruct s.
  - destruct s as [|c' s]; simpl.
    + split; [done|]. by intros [rest Hrest].
    + setoid_rewrite string_app_cons.
      destruct (Ascii.ascii_dec c c') as [->|Hne].
      * rewrite IH. split; intros [rest Hrest]; exists rest; congruence.
      * split; [done|]. intros [rest Hrest]. congruence.
Qed.

Lemma string_length_app (s t : string) :
  String.length (s +:+ t) = String.length s + String.length t.
Proof.
  induction s as [|c s IH]; [done|]. rewrite string_app_cons. simpl. by rewrite IH.
Qed.

Lemma string_app_assoc (s t u : string) : (s +:+ t) +:+ u = s +:+ t +:+ u.
Proof. induction s as [|c s IH]; [done|]. by rewrite !string_app_cons, IH. Qed.

Lemma getmembers_values members (predicate : loc → bool) obj :
  obj ∈ (getmembers members predicate).*2 ↔
  ∃ key, (key, obj) ∈ members ∧ predicate obj = true.
Proof.
  unfold getmembers. rewrite list_elem_of_fmap. split.
  - intros [[key obj'] [-> Hin]]. apply list_elem_of_filter in Hin as [Hpred Hin].
    exists key. split; [done|]. by apply Is_true_true.
  - intros [key [Hin Hpred]]. exists (key, obj). split; [done|].
    apply list_elem_of_filter. split; [|done]. by apply Is_true_true.
Qed.

(** The name under which a module binds a value plays no part in the
    two scans: only the value's own [__name__] is looked at. *)
Lemma getmembers_rebind members (predicate : loc → bool) (rename : string → string) :
  (getmembers (prod_map rename id <$> members) predicate).*2
  = (getmembers members predicate).*2.
Proof.
  unfold getmembers. induction members as [|[key obj] members IH]; [done|].
  rewrite fmap_cons, !filter_cons.
  change (prod_map rename id (key, obj)).2 with obj. change (key, obj).2 with obj.
  destruct (decide (predicate obj)); by rewrite ?fmap_cons, IH.
Qed.

Lemma is_submodule_store sub module_name :
  is_submodule h sub module_name = true ↔
  ∃ name sub_members rest,
    h !! sub = Some (PyModule name sub_members) ∧
    startswith name "_" = false ∧
    name = module_name +:+ "." +:+ rest.
Proof.
  unfold is_submodule, not_private, ismodule, getattr_name, dunder_name, deref.
  rewrite !andb_true_iff, negb_true_iff, startswith_app. split.
  - intros [[Hname Hmod] [rest Hrest]].
    destruct (h !! sub) as [[name sub_members| |]|]; try done. simpl in *.
    exists name, sub_members, rest. split; [done|]. split; [done|].
    by rewrite Hrest, string_app_assoc.
  - intros (name & sub_members & rest & -> & Hname & Hrest). simpl.
    split; [done|]. exists rest. by rewrite Hrest, string_app_assoc.
Qed.

Lemma is_pydantic_model_store model :
  is_pydantic_model h BaseModel model = true ↔
  ∃ name ancestors,
    h !! model = Some (PyClass name ancestors) ∧
    startswith name "_" = false ∧
    (model = BaseModel ∨ BaseModel ∈ ancestors) ∧
    model ≠ BaseModel.
Proof.
  unfold is_pydantic_model, not_private, isclass, issubclass, getattr_name,
    dunder_name, deref.
  rewrite !andb_true_iff, !negb_true_iff, bool_decide_eq_false. split.
  - intros [[[Hname Hclass] Hsub] Hne].
    destruct (h !! model) as [[|name ancestors|]|]; try done. simpl in *.
    exists name, ancestors. do 2 (split; [done|]). split; [|done].
    apply orb_true_iff in Hsub as [Hsub|Hsub]; apply bool_decide_eq_true in Hsub; auto.
  - intros (name & ancestors & -> & Hname & Hsub & Hne). simpl.
    repeat split; try done. apply orb_true_iff.
    destruct Hsub; [left|right]; by apply bool_decide_eq_true.
Qed.

(** What the first loop appends: a value comes out of the namespace of a
    module exactly when some name of the namespace is bound to it and it
    is a class, whose [__name__] does not start with an underscore,
    which has [BaseModel] in its [__mro__] (itself or among its
    ancestors) and is not [BaseModel]. *)
Lemma direct_models_collects members model :
  model ∈ direct_models h BaseModel members ↔
  ∃ key name ancestors,
    (key, model) ∈ members ∧
    h !! model = Some (PyClass name ancestors) ∧
    (∀ rest, name ≠ "_" +:+ rest) ∧
    (model = BaseModel ∨ BaseModel ∈ ancestors) ∧
    model ≠ BaseModel.
Proof.
  unfold direct_models. rewrite getmembers_values.
  setoid_rewrite is_pydantic_model_store. split.
  - intros (key & Hin & name & ancestors & Hcls & Hname & Hsub & Hne).
    exists key, name, ancestors. repeat split; try done.
    intros rest ->. by rewrite (proj2 (startswith_app _ _)) in Hname by eauto.
  - intros (key & name & ancestors & Hin & Hcls & Hname & Hsub & Hne).
    exists key. split; [done|]. exists name, ancestors. repeat split; try done.
    apply not_true_is_false. rewrite startswith_app. intros [rest ->]. by eapply Hname.
Qed.

(** C5, as the code has it: one call on a module recurses into the
    values [submodules] selects, and a value is selected exactly when
    the namespace binds it, it is a module, its [__name__] does not start
    with an underscore and starts with the [__name__] of the module being
    scanned followed by a dot. The recursive call takes its own
    [__name__] for this, so the prefix is the root's name at the root
    only. *)
Theorem extract_recurses_under_module fuel module module_name members :
  h !! module = Some (PyModule module_name members) →
  extract_pydantic_models h BaseModel (S fuel) module
  = (found ← mapM (extract_pydantic_models h BaseModel fuel)
               (submodules h module_name members);
     Some (direct_models h BaseModel members ++ concat found))
  ∧ ∀ sub, sub ∈ submodules h module_name members ↔
      ∃ key name sub_members rest,
        (key, sub) ∈ members ∧
        h !! sub = Some (PyModule name sub_members) ∧
        (∀ rest', name ≠ "_" +:+ rest') ∧
        name = module_name +:+ "." +:+ rest.
Proof.
  intros Hmod. split; [simpl; by rewrite Hmod|].
  intros sub. unfold submodules. rewrite getmembers_values.
  setoid_rewrite is_submodule_store. split.
  - intros (key & Hin & name & sub_members & rest & Hsub & Hname & Hrest).
    exists key, name, sub_members, rest. repeat split; try done.
    intros rest' Hpriv. by rewrite (proj2 (startswith_app _ _)) in Hname by eauto.
  - intros (key & name & sub_members & rest & Hin & Hsub & Hname & Hrest).
    exists key. split; [done|]. exists name, sub_members, rest. repeat split; try done.
    apply not_true_is_false. rewrite startswith_app. intros [rest' Hpriv].
    by eapply Hname.
Qed.

Lemma fold_max_ge {A} (f : loc → nat) (m : gmap loc A) obj :
  is_Some (m !! obj) → f obj ≤ map_fold (λ o _ acc, f o `max` acc) 0 m.
Proof.
  apply (map_fold_weak_ind (λ r m, is_Some (m !! obj) → f obj ≤ r)).
  - rewrite lookup_empty. by intros [? ?].
  - intros o x m' r Hfresh IH. rewrite lookup_insert.
    destruct (decide (o = obj)) as [->|Hne]; [lia|].
    intros Hsome. specialize (IH Hsome). lia.
Qed.

Lemma longest_name_ge module name members :
  h !! module = Some (PyModule name members) → String.length name ≤ longest_name h.
Proof.
  intros Hmod.
  assert (getattr_name h module = name) as <-
    by (unfold getattr_name, dunder_name, deref; by rewrite Hmod).
  apply (fold_max_ge (λ o, String.length (getattr_name h o))). by eexists.
Qed.

(** Every nested call is on a longer name, and no name is longer than
    [longest_name]: the recursion ends, whatever the modules import. *)
Lemma extract_enough_fuel fuel module name members :
  h !! module = Some (PyModule name members) →
  longest_name h < fuel + String.length name →
  is_Some (extract_pydantic_models h BaseModel fuel module).
Proof.
  revert module name members. induction fuel as [|fuel IH]; intros module name members Hmod Hfuel.
  - pose proof (longest_name_ge _ _ _ Hmod). simpl in Hfuel. lia.
  - simpl. rewrite Hmod.
    destruct (mapM _ _) as [found|] eqn:Hsubs; [by eexists|].
    apply mapM_None, Exists_exists in Hsubs as (sub & Hsub & Hnone).
    unfold submodules in Hsub. apply getmembers_values in Hsub as (key & Hin & Hsub).
    apply is_submodule_store in Hsub as (name' & sub_members & rest & Hsubmod & _ & ->).
    destruct (IH sub _ _ Hsubmod) as [models Hmodels]; [|congruence].
    rewrite !string_length_app. simpl. lia.
Qed.

(** More nested calls than needed change nothing. *)
Lemma extract_more_fuel fuel fuel' module models :
  fuel ≤ fuel' →
  extract_pydantic_models h BaseModel fuel module = Some models →
  extract_pydantic_models h BaseModel fuel' module = Some models.
Proof.
  revert fuel' module models.
  induction fuel as [|fuel IH]; intros fuel' module models Hle; [done|].
  destruct fuel' as [|fuel']; [lia|]. simpl.
  destruct (h !! module) as [[module_name members| |]|]; try done.
  destruct (mapM (extract_pydantic_models h BaseModel fuel) _) as [found|] eqn:Hsubs;
    [|done].
  intros [= <-]. apply mapM_Some in Hsubs.
  assert (mapM (extract_pydantic_models h BaseModel fuel')
            (submodules h module_name members) = Some found) as ->; [|done].
  apply mapM_Some. eapply Forall2_impl; [exact Hsubs|].
  intros sub l Hrun. apply (IH fuel'); [lia|done].
Qed.

(** Whatever the bound under which the recursion ends, it ends with the
    list [discover] returns. *)
Lemma extract_discover fuel module models :
  extract_pydantic_models h BaseModel fuel module = Some models →
  discover h BaseModel module = Some models.
Proof.
  intros Hrun. unfold discover.
  assert (∃ name members, h !! module = Some (PyModule name members))
    as (name & members & Hmod).
  { destruct fuel; [done|]. simpl in Hrun.
    destruct (h !! module) as [[name members| |]|]; try done. by eexists _, _. }
  destruct (extract_enough_fuel (S (longest_name h)) module name members Hmod)
    as [models' Hrun']; [lia|].
  pose proof (extract_more_fuel _ (fuel `max` S (longest_name h)) _ _
                (Nat.le_max_l _ _) Hrun) as Hmax.
  pose proof (extract_more_fuel _ (fuel `max` S (longest_name h)) _ _
                (Nat.le_max_r _ _) Hrun') as Hmax'.
  congruence.
Qed.

Lemma visited_trans a b c : visited h a b → visited h b c → visited h a c.
Proof.
  intros Hab Hbc. induction Hbc as [|module module_name members key sub _ IH Hmod Hin Hsub].
  - done.
  - by eapply visited_sub.
Qed.

Lemma visited_inv root m :
  visited h root m →
  m = root ∨
  ∃ name members key sub,
    h !! root = Some (PyModule name members) ∧ (key, sub) ∈ members ∧
    is_submodule h sub name = true ∧ visited h sub m.
Proof.
  induction 1 as [|module module_name members key sub _ IH Hmod Hin Hsub]; [by left|].
  right. destruct IH as [->|(name & members' & key' & sub' & Hroot & Hin' & Hsub' & Hvis)].
  - exists module_name, members, key, sub. repeat split; try done. constructor.
  - exists name, members', key', sub'. repeat split; try done. by eapply visited_sub.
Qed.

Lemma elem_of_concat {A} (x : A) (ls : list (list A)) :
  x ∈ concat ls ↔ ∃ l, x ∈ l ∧ l ∈ ls.
Proof.
  induction ls as [|l ls IH]; simpl.
  - split; [by intros ?%elem_of_nil|]. by intros (l & _ & ?%elem_of_nil).
  - rewrite elem_of_app, IH. split.
    + intros [Hx|(l' & Hx & Hl')]; [exists l|exists l']; split; try done;
        [apply list_elem_of_here | by apply list_elem_of_further].
    + intros (l' & Hx & [->|Hl']%elem_of_cons); [by left|]. right. by exists l'.
Qed.

(** What a call returns: the Models bound in the modules it visits. *)
Lemma extract_members fuel module models :
  extract_pydantic_models h BaseModel fuel module = Some models →
  ∀ model, model ∈ models ↔ reachable_model h BaseModel module model.
Proof.
  revert module models. induction fuel as [|fuel IH]; intros module models; [done|].
  simpl. destruct (h !! module) as [[module_name members| |]|] eqn:Hmod; try done.
  destruct (mapM _ _) as [found|] eqn:Hsubs; [|done]. intros [= <-] model.
  apply mapM_Some in Hsubs. rewrite elem_of_app, elem_of_concat. split.
  - intros [Hdirect|(l & Hmodel & Hl)].
    + apply getmembers_values in Hdirect as (key & Hin & Hmodel).
      exists module, module_name, members, key. repeat split; try done. constructor.
    + apply list_elem_of_lookup in Hl as [i Hi].
      destruct (Forall2_lookup_r _ _ _ _ _ Hsubs Hi) as (sub & Hsub & Hrun).
      apply (IH _ _ Hrun) in Hmodel as (m & name & members' & key & Hvis & Hm & Hin & Hmodel).
      exists m, name, members', key. repeat split; try done.
      apply (visited_trans _ sub); [|done].
      apply list_elem_of_lookup_2, getmembers_values in Hsub as (key' & Hin' & Hsub).
      eapply visited_sub; [constructor|done..].
  - intros (m & name & members' & key & Hvis & Hm & Hin & Hmodel).
    apply visited_inv in Hvis as [->|(name' & members'' & key' & sub & Hroot & Hin' & Hsub & Hvis)].
    + left. rewrite Hmod in Hm. injection Hm as <- <-.
      apply getmembers_values. by exists key.
    + right. rewrite Hmod in Hroot. injection Hroot as <- <-.
      assert (sub ∈ submodules h module_name members) as Hsubs'
        by (apply getmembers_values; by exists key').
      apply list_elem_of_lookup in Hsubs' as [i Hi].
      destruct (Forall2_lookup_l _ _ _ _ _ Hsubs Hi) as (l & Hl & Hrun).
      exists l. split; [|by eapply list_elem_of_lookup_2].
      apply (IH _ _ Hrun). by exists m, name, members', key.
Qed.

(** C8: take a module that discovery scans, the root or a module the
    recursion visits from it, and a value bound in its namespace.
    Discovery returns, and the value is in the list it returns exactly
    when it is a class, whose [__name__] does not start with an
    underscore, which has [BaseModel] in its [__mro__] (itself or among
    its ancestors) and is not [BaseModel]; these are also exactly the
    values the first loop of the call on that module appends. *)
Theorem discover_collects_member root module name members key obj :
  ismodule h root = true →
  visited h root module →
  h !! module = Some (PyModule name members) →
  (key, obj) ∈ members →
  ∃ models, discover h BaseModel root = Some models ∧
    (obj ∈ models ↔
     ∃ cname ancestors,
       h !! obj = Some (PyClass cname ancestors) ∧
       (∀ rest, cname ≠ "_" +:+ rest) ∧
       (obj = BaseModel ∨ BaseModel ∈ ancestors) ∧
       obj ≠ BaseModel) ∧
    (obj ∈ direct_models h BaseModel members ↔
     ∃ cname ancestors,
       h !! obj = Some (PyClass cname ancestors) ∧
       (∀ rest, cname ≠ "_" +:+ rest) ∧
       (obj = BaseModel ∨ BaseModel ∈ ancestors) ∧
       obj ≠ BaseModel).
Proof.
  unfold ismodule, deref. intros Hroot Hvis Hmod Hbound.
  destruct (h !! root) as [[root_name root_members| |]|] eqn:Hrootmod; try done.
  destruct (extract_enough_fuel (S (longest_name h)) root _ _ Hrootmod)
    as [models Hrun]; [lia|].
  pose proof (extract_members _ _ _ Hrun) as Hreach.
  assert (obj ∈ direct_models h BaseModel members ↔
          ∃ cname ancestors,
            h !! obj = Some (PyClass cname ancestors) ∧
            (∀ rest, cname ≠ "_" +:+ rest) ∧
            (obj = BaseModel ∨ BaseModel ∈ ancestors) ∧
            obj ≠ BaseModel) as Hdirect.
  { rewrite direct_models_collects. split.
    - intros (_ & cname & ancestors & _ & Hclass). by exists cname, ancestors.
    - intros (cname & ancestors & Hclass). by exists key, cname, ancestors. }
  exists models. split; [exact Hrun|]. split; [|exact Hdirect].
  rewrite <-Hdirect, Hreach. split.
  - intros (module' & name' & members' & key' & _ & _ & Hbound' & Hmodel).
    apply getmembers_values. by exists key.
  - intros (key' & _ & Hmodel)%getmembers_values.
    by exists module, name, members, key.
Qed.

(** C1, as the code has it: on every module, discovery returns, and the
    list it returns holds exactly the Models bound in the modules the
    recursion visits, each at least once. *)
Theorem discover_reachable root :
  ismodule h root = true →
  ∃ models, discover h BaseModel root = Some models ∧
    ∀ model, model ∈ models ↔ reachable_model h BaseModel root model.
Proof.
  unfold ismodule, deref. intros Hroot.
  destruct (h !! root) as [[name members| |]|] eqn:Hmod; try done.
  destruct (extract_enough_fuel (S (longest_name h)) root name members Hmod)
    as [models Hmodels]; [lia|].
  exists models. split; [done|]. exact (extract_members _ _ _ Hmodels).
Qed.
End DiscoveryFacts.

(** * Properties of the container removal *)

Section OutputFacts.
Import Output.
Implicit Types (line content body raw text : string) (lines : list string).

Lemma rstrip_crlf_plain body : plain body → rstrip_crlf body = body.
Proof.
  induction body as [|c body IH]; [done|]. intros [Hc Hbody]. simpl.
  rewrite (IH Hbody). destruct body; [|done].
  by rewrite decide_False by tauto.
Qed.

Lemma rstrip_crlf_terminated body :
  plain body → rstrip_crlf (body +:+ String LF EmptyString) = body.
Proof.
  induction body as [|c body IH]; [done|]. intros [Hc Hbody].
  rewrite string_app_cons. simpl. rewrite (IH Hbody). destruct body; [|done].
  by rewrite decide_False by tauto.
Qed.

Lemma line_is_rstrip content line :
  plain content → line_is content line → rstrip_crlf line = content.
Proof.
  intros Hplain [->| ->]; [by apply rstrip_crlf_plain|by apply rstrip_crlf_terminated].
Qed.

(** No CR is left in a text read with universal newlines. *)
Lemma universal_newlines_no_CR raw :
  chars_Forall (λ c, c ≠ CR) (universal_newlines raw).
Proof.
  remember (String.length raw) as n eqn:Hn. revert raw Hn.
  induction (lt_wf n) as [n _ IH]. intros raw ->.
  destruct raw as [|c rest]; [done|]. simpl.
  destruct (decide (c = CR)) as [->|Hc].
  - destruct rest as [|c' rest'].
    + by split.
    + destruct (decide (c' = LF)); (split; [done|]).
      * eapply (IH (String.length rest')); [simpl; lia|done].
      * eapply (IH (String.length (String c' rest'))); [simpl; lia|done].
  - split; [done|]. eapply (IH (String.length rest)); [simpl; lia|done].
Qed.

(** [readlines] returns lines that end in LF or not at all, and hold no
    LF elsewhere. *)
Lemma readlines_shape text :
  chars_Forall (λ c, c ≠ CR) text →
  Forall (λ line, ∃ body, plain body ∧ line_is body line) (readlines text).
Proof.
  induction text as [|c text IH]; [constructor|]. intros [Hc Htext]. simpl.
  specialize (IH Htext). destruct (decide (c = LF)) as [->|Hlf].
  - constructor; [|done]. exists EmptyString. split; [done|]. by right.
  - destruct (readlines text) as [|line lines].
    + constructor; [|done]. exists (String c EmptyString). split; [|by left].
      by repeat split.
    + apply Forall_cons in IH as [(body & Hbody & Hline) Hlines].
      constructor; [|done]. exists (String c body). split; [by repeat split|].
      destruct Hline as [->| ->]; [by left|by right].
Qed.

(** On the lines of a file, the comparison of the script holds exactly
    for the lines whose text is the delimiter. *)
Lemma rstrip_crlf_line_is raw content line :
  plain content →
  line ∈ readlines (universal_newlines raw) →
  rstrip_crlf line = content ↔ line_is content line.
Proof.
  intros Hplain Hin. split; [|by apply line_is_rstrip].
  pose proof (readlines_shape _ (universal_newlines_no_CR raw)) as Hshape.
  rewrite Forall_forall in Hshape. destruct (Hshape _ Hin) as (body & Hbody & Hline).
  rewrite (line_is_rstrip _ _ Hbody Hline). by intros <-.
Qed.

Lemma master_start_plain : plain master_start.
Proof. cbv. repeat split; discriminate. Qed.

Lemma master_end_plain : plain master_end.
Proof. cbv. repeat split; discriminate. Qed.

Lemma scan_unstarted before rest i :
  Forall (λ line, rstrip_crlf line ≠ master_start) before →
  scan (before ++ rest) i None = scan rest (i + length before) None.
Proof.
  intros Hbefore. revert i. induction Hbefore as [|line before Hline _ IH]; intros i; simpl.
  - by rewrite Nat.add_0_r.
  - rewrite decide_False by done. rewrite IH. f_equal. lia.
Qed.

Lemma scan_open block rest i start :
  Forall (λ line, rstrip_crlf line ≠ master_end) block →
  ∃ start', scan (block ++ rest) i start = scan rest (i + length block) start'.
Proof.
  intros Hblock. revert i start.
  induction Hblock as [|line block Hline _ IH]; intros i start; simpl.
  - exists start. by rewrite Nat.add_0_r.
  - destruct (decide (rstrip_crlf line = master_start)).
    + destruct (IH (S i) (Some i)) as [start' ->]. exists start'. f_equal. lia.
    + rewrite decide_False by tauto.
      destruct (IH (S i) start) as [start' ->]. exists start'. f_equal. lia.
Qed.

Lemma scan_inside block rest i start :
  Forall (λ line, rstrip_crlf line ≠ master_start ∧ rstrip_crlf line ≠ master_end) block →
  scan (block ++ rest) i start = scan rest (i + length block) start.
Proof.
  intros Hblock. revert i.
  induction Hblock as [|line block [Hstart Hend] _ IH]; intros i; simpl.
  - by rewrite Nat.add_0_r.
  - rewrite decide_False by done. rewrite decide_False by tauto.
    rewrite IH. f_equal. lia.
Qed.

(** What the loop finds when the last start line before the closing
    brace is [s] and the first closing brace after a start line is [e]. *)
Lemma scan_between before stale s block e after :
  Forall (λ line, rstrip_crlf line ≠ master_start) before →
  Forall (λ line, rstrip_crlf line ≠ master_end) stale →
  rstrip_crlf s = master_start →
  Forall (λ line, rstrip_crlf line ≠ master_start ∧ rstrip_crlf line ≠ master_end) block →
  rstrip_crlf e = master_end →
  scan (before ++ stale ++ s :: block ++ e :: after) 0 None
  = (Some (length (before ++ stale)),
     Some (length (before ++ stale ++ s :: block))).
Proof.
  intros Hbefore Hstale Hs Hblock He.
  rewrite (scan_unstarted _ _ _ Hbefore).
  destruct (scan_open stale (s :: block ++ e :: after) (0 + length before) None Hstale)
    as [start' ->].
  cbn [scan]. rewrite decide_True by done.
  rewrite (scan_inside _ _ _ _ Hblock). cbn [scan].
  rewrite decide_False by (rewrite He; discriminate).
  rewrite decide_True by (split; [by eexists|done]).
  rewrite !length_app. cbn [length]. do 2 f_equal; lia.
Qed.

Lemma new_lines_between before stale s block e after :
  Forall (λ line, rstrip_crlf line ≠ master_start) before →
  Forall (λ line, rstrip_crlf line ≠ master_end) stale →
  rstrip_crlf s = master_start →
  Forall (λ line, rstrip_crlf line ≠ master_start ∧ rstrip_crlf line ≠ master_end) block →
  rstrip_crlf e = master_end →
  new_lines (before ++ stale ++ s :: block ++ e :: after)
  = Some (before ++ stale ++ after).
Proof.
  intros Hbefore Hstale Hs Hblock He. unfold new_lines.
  rewrite (scan_between _ _ _ _ _ _ Hbefore Hstale Hs Hblock He).
  unfold slice_to, slice_after. cbn [mbind option_bind]. f_equal.
  rewrite (app_assoc before stale (s :: _)), take_app_length.
  rewrite (app_assoc before stale after). f_equal.
  replace ((before ++ stale) ++ s :: block ++ e :: after)
    with ((before ++ stale ++ s :: block ++ [e]) ++ after).
  - apply drop_app_length'. rewrite !length_app. cbn [length].
    rewrite !length_app. cbn [length]. lia.
  - rewrite <-!app_assoc. cbn [app]. by rewrite <-!app_assoc.
Qed.

(** Without a start line there is no [end]. *)
Lemma new_lines_without_start lines :
  Forall (λ line, rstrip_crlf line ≠ master_start) lines → new_lines lines = None.
Proof.
  intros Hlines. unfold new_lines.
  rewrite <-(app_nil_r lines), (scan_unstarted _ _ _ Hlines). done.
Qed.

Lemma Forall_rstrip_crlf raw content lines :
  plain content →
  (∀ line, line ∈ lines → line ∈ readlines (universal_newlines raw)) →
  Forall (λ line, ¬ line_is content line) lines →
  Forall (λ line, rstrip_crlf line ≠ content) lines.
Proof.
  intros Hplain Hsub. rewrite !Forall_forall. intros Hnot line Hin Heq.
  apply (Hnot line Hin). apply (rstrip_crlf_line_is raw); auto.
Qed.

(** C2, as the code has it: on a file none of whose lines is the start
    line, [end] is never set and the call raises at [end + 1]; this is
    before the file is opened for writing, and the file system is as it
    was. *)
Theorem remove_master_model_without_start linesep output fs raw :
  fs !! output = Some raw →
  Forall (λ line, ¬ line_is master_start line) (readlines (universal_newlines raw)) →
  remove_master_model_from_output linesep output fs = (fs, Raised TypeError).
Proof.
  intros Hraw Hlines. unfold remove_master_model_from_output. rewrite Hraw.
  rewrite new_lines_without_start; [done|].
  by apply (Forall_rstrip_crlf raw); [apply master_start_plain| |].
Qed.

(** The file the call leaves when [e] is the first closing brace that
    comes after a start line and [s] is the last start line before [e]:
    the lines before [s] and the lines after [e]. *)
Lemma remove_master_model_split linesep output fs raw before stale s block e after :
  fs !! output = Some raw →
  readlines (universal_newlines raw) = before ++ stale ++ s :: block ++ e :: after →
  Forall (λ line, ¬ line_is master_start line) before →
  Forall (λ line, ¬ line_is master_end line) stale →
  line_is master_start s →
  Forall (λ line, ¬ line_is master_start line ∧ ¬ line_is master_end line) block →
  line_is master_end e →
  remove_master_model_from_output linesep output fs
  = (<[output := writelines linesep (before ++ stale ++ after)]> fs, Returned).
Proof.
  intros Hraw Hlines Hbefore Hstale Hs Hblock He.
  unfold remove_master_model_from_output. rewrite Hraw, Hlines.
  apply Forall_and in Hblock as [Hblock_start Hblock_end].
  rewrite new_lines_between; [done| | | | |].
  - apply (Forall_rstrip_crlf raw); [apply master_start_plain| |done].
    intros line Hin. rewrite Hlines, !elem_of_app. tauto.
  - apply (Forall_rstrip_crlf raw); [apply master_end_plain| |done].
    intros line Hin. rewrite Hlines, !elem_of_app. tauto.
  - by apply line_is_rstrip; [apply master_start_plain|].
  - apply Forall_and. split.
    + apply (Forall_rstrip_crlf raw); [apply master_start_plain| |done].
      intros line Hin. rewrite Hlines, !elem_of_app, elem_of_cons, elem_of_app. tauto.
    + apply (Forall_rstrip_crlf raw); [apply master_end_plain| |done].
      intros line Hin. rewrite Hlines, !elem_of_app, elem_of_cons, elem_of_app. tauto.
  - by apply line_is_rstrip; [apply master_end_plain|].
Qed.

Lemma Exists_split_first {A} (P : A → Prop) `{!∀ x, Decision (P x)} (l : list A) :
  Exists P l →
  ∃ l1 x l2, l = l1 ++ x :: l2 ∧ Forall (λ y, ¬ P y) l1 ∧ P x.
Proof.
  induction l as [|y l IH]; intros Hex; [by apply Exists_nil in Hex|].
  destruct (decide (P y)) as [Hy|Hy].
  - by exists [], y, l.
  - apply Exists_cons in Hex as [?|Hex]; [done|].
    destruct (IH Hex) as (l1 & x & l2 & -> & Hl1 & Hx).
    exists (y :: l1), x, l2. split; [done|]. split; [by constructor|done].
Qed.

Lemma Exists_split_last {A} (P : A → Prop) `{!∀ x, Decision (P x)} (l : list A) :
  Exists P l →
  ∃ l1 x l2, l = l1 ++ x :: l2 ∧ P x ∧ Forall (λ y, ¬ P y) l2 ∧
    (l1 = [] ∨ ∃ y l1', l1 = y :: l1' ∧ head l = Some y).
Proof.
  induction l as [|y l IH]; intros Hex; [by apply Exists_nil in Hex|].
  destruct (decide (Exists P l)) as [Hl|Hl].
  - destruct (IH Hl) as (l1 & x & l2 & -> & Hx & Hl2 & _).
    exists (y :: l1), x, l2. do 3 (split; [done|]). right. by exists y, l1.
  - apply Exists_cons in Hex as [Hy|?]; [|done].
    exists [], y, l. do 2 (split; [done|]). split; [|by left].
    by apply not_Exists_Forall.
Qed.

Lemma start_line_not_end line : line_is master_start line → ¬ line_is master_end line.
Proof. by intros [->| ->] [?|?]. Qed.

(** Lines in which a closing brace follows a start line split around
    the last start line before the first such brace. *)
Lemma start_then_end_split lines i j s1 e1 :
  i < j →
  lines !! i = Some s1 → line_is master_start s1 →
  lines !! j = Some e1 → line_is master_end e1 →
  ∃ before stale s block e after,
    lines = before ++ stale ++ s :: block ++ e :: after ∧
    Forall (λ line, ¬ line_is master_start line) before ∧
    Forall (λ line, ¬ line_is master_end line) stale ∧
    (stale = [] ∨ ∃ first stale', stale = first :: stale' ∧ line_is master_start first) ∧
    line_is master_start s ∧
    Forall (λ line, ¬ line_is master_start line ∧ ¬ line_is master_end line) block ∧
    line_is master_end e.
Proof.
  intros Hij Hi Hs1 Hj He1.
  destruct (Exists_split_first (line_is master_start) lines)
    as (before & s0 & rest & -> & Hbefore & Hs0).
  { apply Exists_exists. exists s1. split; [by eapply list_elem_of_lookup_2|done]. }
  assert (length before ≤ i) as Hlen.
  { destruct (decide (i < length before)) as [Hlt|]; [|lia].
    rewrite lookup_app_l in Hi by done. rewrite Forall_forall in Hbefore.
    destruct (Hbefore s1); [by eapply list_elem_of_lookup_2|done]. }
  assert (e1 ∈ rest) as He1_rest.
  { rewrite lookup_app_r in Hj by lia.
    destruct (j - length before) as [|k] eqn:Hk; [lia|].
    by eapply list_elem_of_lookup_2. }
  destruct (Exists_split_first (line_is master_end) rest)
    as (mid & e & after & -> & Hmid & He).
  { apply Exists_exists. by exists e1. }
  destruct (Exists_split_last (line_is master_start) (s0 :: mid))
    as (stale & s & block & Hsplit & Hs & Hblock & Hstale).
  { by apply Exists_cons_hd. }
  assert (Forall (λ line, ¬ line_is master_end line) (stale ++ s :: block)) as Hopen.
  { rewrite <-Hsplit. constructor; [by apply start_line_not_end|done]. }
  apply Forall_app in Hopen as [Hopen_stale Hopen_block].
  apply Forall_cons in Hopen_block as [_ Hopen_block].
  exists before, stale, s, block, e, after. split.
  { rewrite (app_comm_cons mid), Hsplit, <-!app_assoc. done. }
  do 2 (split; [done|]). split.
  { destruct Hstale as [->|(first & stale' & -> & [= <-])]; [by left|].
    right. by exists s0, stale'. }
  split; [done|]. split; [|done].
  apply Forall_and. by split.
Qed.

(** C4, as the code has it: when a closing brace follows a start line,
    the call returns. With [e] the first closing brace after the first
    start line and [s] the last start line before [e], it leaves the
    file with the lines before [s] followed by the lines after [e]: both
    [s] and [e] are gone with what lies between them. The lines [stale]
    from the first start line up to [s] stay in the file; there are none
    when [s] is the first start line. *)
Theorem remove_master_model_between linesep output fs raw :
  fs !! output = Some raw →
  (∃ i j s e, i < j ∧
     readlines (universal_newlines raw) !! i = Some s ∧ line_is master_start s ∧
     readlines (universal_newlines raw) !! j = Some e ∧ line_is master_end e) →
  ∃ before stale s block e after,
    readlines (universal_newlines raw) = before ++ stale ++ s :: block ++ e :: after ∧
    Forall (λ line, ¬ line_is master_start line) before ∧
    Forall (λ line, ¬ line_is master_end line) stale ∧
    (stale = [] ∨ ∃ first stale', stale = first :: stale' ∧ line_is master_start first) ∧
    line_is master_start s ∧
    Forall (λ line, ¬ line_is master_start line ∧ ¬ line_is master_end line) block ∧
    line_is master_end e ∧
    remove_master_model_from_output linesep output fs
    = (<[output := writelines linesep (before ++ stale ++ after)]> fs, Returned).
Proof.
  intros Hraw (i & j & s1 & e1 & Hij & Hi & Hs1 & Hj & He1).
  destruct (start_then_end_split _ i j s1 e1 Hij Hi Hs1 Hj He1)
    as (before & stale & s & block & e & after
        & Hlines & Hbefore & Hstale & Hfirst & Hs & Hblock & He).
  exists before, stale, s, block, e, after. do 7 (split; [done|]).
  by apply (remove_master_model_split linesep output fs raw before stale s block e after).
Qed.
End OutputFacts.

(** * Properties of the synthesized container *)

Section ContainerFacts.
Import Discovery Synthesis.
Context (h : gmap loc pyobj).
Implicit Types (models : list loc) (name key : string).

Lemma dict_get_setitem {V} key key' (value : V) d :
  dict_get key' (dict_setitem key value d)
  = if decide (key' = key) then Some value else dict_get key' d.
Proof.
  induction d as [|[k v] d IH]; simpl.
  - by destruct (decide (key' = key)).
  - destruct (decide (key = k)) as [->|Hk]; simpl.
    + by destruct (decide (key' = k)).
    + destruct (decide (key' = k)) as [->|Hk'].
      * by rewrite decide_False by done.
      * done.
Qed.

Lemma dict_setitem_keys {V} key key' (value : V) d :
  key' ∈ (dict_setitem key value d).*1 ↔ key' = key ∨ key' ∈ d.*1.
Proof.
  induction d as [|[k v] d IH]; simpl.
  - rewrite list_elem_of_singleton. split; [auto|]. intros [?|?%elem_of_nil]; done.
  - destruct (decide (key = k)) as [->|Hk]; simpl; rewrite !elem_of_cons.
    + tauto.
    + rewrite IH. tauto.
Qed.

Lemma dict_setitem_NoDup {V} key (value : V) d :
  NoDup d.*1 → NoDup (dict_setitem key value d).*1.
Proof.
  induction d as [|[k v] d IH]; simpl.
  - intros _. apply NoDup_singleton.
  - rewrite NoDup_cons. intros [Hk Hd].
    destruct (decide (key = k)) as [->|Hne]; simpl; rewrite NoDup_cons.
    + done.
    + split; [|by apply IH]. rewrite dict_setitem_keys. intros [?|?]; done.
Qed.

Lemma dict_get_elem_of {V} key (value : V) d :
  NoDup d.*1 → (key, value) ∈ d ↔ dict_get key d = Some value.
Proof.
  induction d as [|[k v] d IH]; simpl.
  - intros _. split; [by intros ?%elem_of_nil|done].
  - rewrite NoDup_cons. intros [Hk Hd]. rewrite elem_of_cons, (IH Hd).
    destruct (decide (key = k)) as [->|Hne].
    + split; [|intros [= ->]; by left].
      intros [[= ->]|Hget]; [done|]. destruct Hk.
      apply (IH Hd) in Hget. apply list_elem_of_fmap. by exists (k, value).
    + split; [intros [[= ? ?]|?]; done|by right].
Qed.

Lemma last_named_snoc name models m :
  last_named h name (models ++ [m])
  = if decide (dunder_name h m = Some name) then Some m else last_named h name models.
Proof.
  unfold last_named. rewrite filter_app, filter_cons, filter_nil.
  destruct (decide (dunder_name h m = Some name)).
  - apply last_snoc.
  - by rewrite app_nil_r.
Qed.

Lemma last_named_elem_of name models m :
  last_named h name models = Some m → m ∈ models ∧ dunder_name h m = Some name.
Proof.
  unfold last_named. intros Hlast%last_Some_elem_of.
  apply list_elem_of_filter in Hlast. tauto.
Qed.

Lemma last_named_is_Some name models m :
  m ∈ models → dunder_name h m = Some name → is_Some (last_named h name models).
Proof.
  intros Hin Hname. unfold last_named.
  destruct (last _) eqn:Hlast; [by eexists|].
  apply last_None in Hlast.
  assert (m ∈ filter (λ m, dunder_name h m = Some name) models) as Hm
    by by apply list_elem_of_filter.
  rewrite Hlast in Hm. by apply elem_of_nil in Hm.
Qed.

(** The dict the comprehension builds: one key per class name, holding
    the last Model of that name. *)
Lemma field_definitions_lookup models :
  (∀ m, m ∈ models → isclass h m = true) →
  ∃ d, field_definitions h models = Some d ∧
    NoDup d.*1 ∧
    ∀ name, dict_get name d = (λ m, (m, Ellipsis)) <$> last_named h name models.
Proof.
  unfold field_definitions.
  induction models as [|m models IH] using rev_ind; intros Hclasses.
  - exists []. split; [done|]. split; [constructor|done].
  - destruct IH as (d & Hd & Hnodup & Hget).
    { intros m' Hm'. apply Hclasses. apply elem_of_app. by left. }
    assert (isclass h m = true) as Hclass
      by (apply Hclasses, elem_of_app; right; constructor).
    assert (∃ name, dunder_name h m = Some name) as [name Hname].
    { unfold isclass, dunder_name in *. destruct (deref h m); try done. by eexists. }
    exists (dict_setitem name (m, Ellipsis) d).
    rewrite foldl_snoc, Hd. simpl. rewrite Hname. simpl. split; [done|].
    split; [by apply dict_setitem_NoDup|]. intros name'.
    rewrite dict_get_setitem, last_named_snoc, Hname, Hget.
    destruct (decide (name' = name)) as [->|Hne].
    + by rewrite decide_True.
    + by rewrite decide_False by congruence.
Qed.
(** C9, as the code has it: when the discovered Models are classes, the
    container is built; its fields have distinct names, each is required
    and typed as the last Model of the list that bears the field's name;
    every Model of the list finds a field of its class name, and that
    field is typed as the Model itself when no other Model of the list
    bears its name. *)
Theorem master_model_fields models :
  (∀ m, m ∈ models → isclass h m = true) →
  ∃ master, master_model h models = Some master ∧
    container_name master = "_Master_" ∧
    NoDup (field_name <$> container_fields master) ∧
    (∀ f, f ∈ container_fields master →
       field_required f = true ∧
       last_named h (field_name f) models = Some (field_type f)) ∧
    (∀ m name, m ∈ models → dunder_name h m = Some name →
       ∃ f, f ∈ container_fields master ∧ field_name f = name) ∧
    (∀ m name, m ∈ models → dunder_name h m = Some name →
       (∀ m', m' ∈ models → dunder_name h m' = Some name → m' = m) →
       {| field_name := name; field_type := m; field_required := true |}
         ∈ container_fields master).
Proof.
  intros Hclasses.
  destruct (field_definitions_lookup models Hclasses) as (d & Hd & Hnodup & Hget).
  exists (create_model "_Master_" d). unfold master_model. rewrite Hd.
  split; [done|]. split; [done|]. simpl.
  assert (∀ m name, m ∈ models → dunder_name h m = Some name →
    ∃ m', last_named h name models = Some m' ∧
      {| field_name := name; field_type := m'; field_required := true |}
        ∈ container_fields (create_model "_Master_" d)) as Hfield.
  { intros m name Hin Hname.
    destruct (last_named_is_Some name models m Hin Hname) as [m' Hlast].
    exists m'. split; [done|]. simpl. apply list_elem_of_fmap.
    exists (name, (m', Ellipsis)). split; [done|].
    apply (dict_get_elem_of _ _ _ Hnodup). by rewrite Hget, Hlast. }
  split; [|split; [|split]].
  - by rewrite <-list_fmap_compose.
  - intros f [[name [m dflt]] [-> Hin]]%list_elem_of_fmap. simpl.
    apply (dict_get_elem_of _ _ _ Hnodup) in Hin. rewrite Hget in Hin.
    destruct (last_named h name models) as [m'|]; [|done].
    by injection Hin as <- <-.
  - intros m name Hin Hname.
    destruct (Hfield m name Hin Hname) as (m' & _ & Hf). by eexists.
  - intros m name Hin Hname Honly.
    destruct (Hfield m name Hin Hname) as (m' & Hlast & Hf).
    apply last_named_elem_of in Hlast as [Hin' Hname'].
    by rewrite <-(Honly m' Hin' Hname').
Qed.
End ContainerFacts.

(** * The theorems on the sample packages and files *)

Section DiscoveryInstances.
Import Discovery.

Lemma discover_reachable_pkg :
  ismodule reexport_store pkg_id = true ∧
  ∃ models, discover reexport_store BaseModel_id pkg_id = Some models ∧
    ∀ model, model ∈ models ↔ reachable_model reexport_store BaseModel_id pkg_id model.
Proof.
  split; [vm_compute; reflexivity|].
  apply discover_reachable. vm_compute; reflexivity.
Defined.

Lemma discover_collects_member_pkg :
  ismodule reexport_store pkg_id = true ∧
  visited reexport_store pkg_id pkg_sub_id ∧
  reexport_store !! pkg_sub_id
  = Some (PyModule "pkg.sub" [("BaseModel", BaseModel_id); ("Foo", Foo_id)]) ∧
  ("Foo", Foo_id) ∈ [("BaseModel", BaseModel_id); ("Foo", Foo_id)] ∧
  ∃ models, discover reexport_store BaseModel_id pkg_id = Some models ∧
    (Foo_id ∈ models ↔
     ∃ cname ancestors,
       reexport_store !! Foo_id = Some (PyClass cname ancestors) ∧
       (∀ rest, cname ≠ "_" +:+ rest) ∧
       (Foo_id = BaseModel_id ∨ BaseModel_id ∈ ancestors) ∧
       Foo_id ≠ BaseModel_id) ∧
    (Foo_id ∈ direct_models reexport_store BaseModel_id
                [("BaseModel", BaseModel_id); ("Foo", Foo_id)] ↔
     ∃ cname ancestors,
       reexport_store !! Foo_id = Some (PyClass cname ancestors) ∧
       (∀ rest, cname ≠ "_" +:+ rest) ∧
       (Foo_id = BaseModel_id ∨ BaseModel_id ∈ ancestors) ∧
       Foo_id ≠ BaseModel_id).
Proof.
  assert (ismodule reexport_store pkg_id = true) as Hroot by (vm_compute; reflexivity).
  assert (visited reexport_store pkg_id pkg_sub_id) as Hvis.
  { apply (visited_sub _ _ pkg_id "pkg" [("Foo", Foo_id); ("sub", pkg_sub_id)] "sub");
      [constructor|vm_compute; reflexivity| |vm_compute; reflexivity].
    apply list_elem_of_further, list_elem_of_here. }
  assert (reexport_store !! pkg_sub_id
          = Some (PyModule "pkg.sub" [("BaseModel", BaseModel_id); ("Foo", Foo_id)]))
    as Hmod by (vm_compute; reflexivity).
  assert (("Foo", Foo_id) ∈ [("BaseModel", BaseModel_id); ("Foo", Foo_id)]) as Hbound
    by apply list_elem_of_further, list_elem_of_here.
  split; [exact Hroot|]. split; [exact Hvis|]. split; [exact Hmod|].
  split; [exact Hbound|].
  exact (discover_collects_member reexport_store BaseModel_id pkg_id pkg_sub_id _ _ _ _
           Hroot Hvis Hmod Hbound).
Defined.

(** [BaseModel] itself, bound in [pkg.sub] by its import, is a class and
    its own subclass; it is not in the list. *)
Lemma discover_skips_BaseModel :
  ("BaseModel", BaseModel_id) ∈ [("BaseModel", BaseModel_id); ("Foo", Foo_id)] ∧
  discover reexport_store BaseModel_id pkg_id = Some [Foo_id; Foo_id] ∧
  BaseModel_id ∉ [Foo_id; Foo_id].
Proof.
  split; [apply list_elem_of_here|]. split; [vm_compute; reflexivity|].
  intros [Heq|[Heq|[]%elem_of_nil]%elem_of_cons]%elem_of_cons; discriminate Heq.
Qed.

(** Against C1 as stated: [Foo] is bound in [pkg] and in [pkg.sub], and
    comes out twice. *)
Lemma discover_reexport_twice :
  discover reexport_store BaseModel_id pkg_id = Some [Foo_id; Foo_id] ∧
  ¬ each_model_once reexport_store BaseModel_id pkg_id.
Proof.
  assert (discover reexport_store BaseModel_id pkg_id = Some [Foo_id; Foo_id])
    as Htwice by (vm_compute; reflexivity).
  split; [exact Htwice|].
  intros (models & Hrun & _ & Hnodup). rewrite Htwice in Hrun. injection Hrun as <-.
  apply NoDup_cons in Hnodup as [Hnotin _]. apply Hnotin. constructor.
Qed.

Lemma extract_recurses_under_module_pkg :
  sibling_store !! pkg_id = Some (PyModule "pkg" [("a", pkg_a_id); ("b", pkg_b_id)]) ∧
  extract_pydantic_models sibling_store BaseModel_id 2 pkg_id
  = (found ← mapM (extract_pydantic_models sibling_store BaseModel_id 1)
               (submodules sibling_store "pkg" [("a", pkg_a_id); ("b", pkg_b_id)]);
     Some (direct_models sibling_store BaseModel_id [("a", pkg_a_id); ("b", pkg_b_id)]
             ++ concat found)) ∧
  ∀ sub, sub ∈ submodules sibling_store "pkg" [("a", pkg_a_id); ("b", pkg_b_id)] ↔
    ∃ key name sub_members rest,
      (key, sub) ∈ [("a", pkg_a_id); ("b", pkg_b_id)] ∧
      sibling_store !! sub = Some (PyModule name sub_members) ∧
      (∀ rest', name ≠ "_" +:+ rest') ∧
      name = "pkg" +:+ "." +:+ rest.
Proof.
  split; [vm_compute; reflexivity|].
  apply extract_recurses_under_module. vm_compute; reflexivity.
Defined.

(** Against C5 as stated: scanning [pkg.a], the member [b] is the
    module [pkg.b]; its name starts with the root's name and a dot, yet
    the call does not recurse into it, its prefix being ["pkg.a."]. *)
Lemma sibling_not_recursed :
  qualifies_under_root sibling_store pkg_id pkg_b_id = true ∧
  submodules sibling_store "pkg.a" [("b", pkg_b_id)] = [] ∧
  discover sibling_store BaseModel_id pkg_id = Some [B_id] ∧
  ¬ recurses_under_root sibling_store pkg_id.
Proof.
  split; [vm_compute; reflexivity|]. split; [vm_compute; reflexivity|].
  split; [vm_compute; reflexivity|].
  intros Hclaim.
  destruct (Hclaim pkg_a_id "pkg.a" [("b", pkg_b_id)] "b" pkg_b_id) as [_ Hin].
  - apply (visited_sub _ _ pkg_id "pkg" [("a", pkg_a_id); ("b", pkg_b_id)] "a");
      [constructor|vm_compute; reflexivity|constructor|vm_compute; reflexivity].
  - vm_compute; reflexivity.
  - constructor.
  - assert (submodules sibling_store "pkg.a" [("b", pkg_b_id)] = []) as Hnone
      by (vm_compute; reflexivity).
    rewrite Hnone in Hin. eapply elem_of_nil, Hin. vm_compute; reflexivity.
Qed.
End DiscoveryInstances.

Section ContainerInstances.
Import Discovery Synthesis.

Lemma master_model_fields_B :
  (∀ m, m ∈ [B_id] → isclass sibling_store m = true) ∧
  ∃ master, master_model sibling_store [B_id] = Some master ∧
    container_name master = "_Master_" ∧
    NoDup (field_name <$> container_fields master) ∧
    (∀ f, f ∈ container_fields master →
       field_required f = true ∧
       last_named sibling_store (field_name f) [B_id] = Some (field_type f)) ∧
    (∀ m name, m ∈ [B_id] → dunder_name sibling_store m = Some name →
       ∃ f, f ∈ container_fields master ∧ field_name f = name) ∧
    (∀ m name, m ∈ [B_id] → dunder_name sibling_store m = Some name →
       (∀ m', m' ∈ [B_id] → dunder_name sibling_store m' = Some name → m' = m) →
       {| field_name := name; field_type := m; field_required := true |}
         ∈ container_fields master).
Proof.
  assert (∀ m, m ∈ [B_id] → isclass sibling_store m = true) as Hclasses
    by (intros m ->%list_elem_of_singleton; vm_compute; reflexivity).
  split; [exact Hclasses|]. exact (master_model_fields sibling_store [B_id] Hclasses).
Defined.

(** Against C9 as stated: the two classes called [Foo] are both
    discovered; the container has the single field [Foo], typed as the
    second. *)
Lemma master_model_collision :
  discover collision_store BaseModel_id pkg_id = Some [Foo_a_id; Foo_b_id] ∧
  master_model collision_store [Foo_a_id; Foo_b_id]
  = Some {| container_name := "_Master_";
            container_fields :=
              [ {| field_name := "Foo"; field_type := Foo_b_id;
                   field_required := true |} ] |} ∧
  ¬ one_field_per_model collision_store [Foo_a_id; Foo_b_id].
Proof.
  split; [vm_compute; reflexivity|].
  assert (master_model collision_store [Foo_a_id; Foo_b_id]
    = Some {| container_name := "_Master_";
              container_fields :=
                [ {| field_name := "Foo"; field_type := Foo_b_id;
                     field_required := true |} ] |}) as Hmaster
    by (vm_compute; reflexivity).
  split; [exact Hmaster|].
  intros (master & Hrun & Hfields). rewrite Hmaster in Hrun. injection Hrun as <-.
  destruct (Hfields Foo_a_id) as (name & _ & Hin); [constructor|].
  simpl in Hin. apply list_elem_of_singleton in Hin. discriminate Hin.
Qed.
End ContainerInstances.

Section OutputInstances.
Import Output.

Lemma remove_master_model_without_start_Foo :
  ({["out.ts" := no_container_ts]} : gmap string string) !! "out.ts" = Some no_container_ts ∧
  Forall (λ line, ¬ line_is master_start line)
    (readlines (universal_newlines no_container_ts)) ∧
  remove_master_model_from_output posix_linesep "out.ts" {["out.ts" := no_container_ts]}
  = ({["out.ts" := no_container_ts]}, Raised TypeError).
Proof.
  assert (Forall (λ line, ¬ line_is master_start line)
            (readlines (universal_newlines no_container_ts))) as Hlines
    by (apply (bool_decide_unpack _); vm_compute; exact I).
  split; [reflexivity|]. split; [exact Hlines|].
  exact (remove_master_model_without_start posix_linesep "out.ts"
           {["out.ts" := no_container_ts]} no_container_ts eq_refl Hlines).
Defined.

(** Against C2 as stated: on a file without a container the call does
    not complete. *)
Lemma remove_master_model_raises :
  Forall (λ line, ¬ line_is master_start line)
    (readlines (universal_newlines no_container_ts)) ∧
  ¬ completes_silently posix_linesep "out.ts" {["out.ts" := no_container_ts]}.
Proof.
  split; [apply (bool_decide_unpack _); vm_compute; exact I|].
  intros [text Hrun]. apply (f_equal snd) in Hrun. vm_compute in Hrun. discriminate Hrun.
Qed.
Lemma remove_master_model_between_generated :
  ({["out.ts" := generated_ts]} : gmap string string) !! "out.ts" = Some generated_ts ∧
  ∃ before stale s block e after,
    readlines (universal_newlines generated_ts)
    = before ++ stale ++ s :: block ++ e :: after ∧
    Forall (λ line, ¬ line_is master_start line) before ∧
    Forall (λ line, ¬ line_is master_end line) stale ∧
    (stale = [] ∨ ∃ first stale', stale = first :: stale' ∧ line_is master_start first) ∧
    line_is master_start s ∧
    Forall (λ line, ¬ line_is master_start line ∧ ¬ line_is master_end line) block ∧
    line_is master_end e ∧
    remove_master_model_from_output posix_linesep "out.ts" {["out.ts" := generated_ts]}
    = (<["out.ts" := writelines posix_linesep (before ++ stale ++ after)]>
         {["out.ts" := generated_ts]}, Returned).
Proof.
  split; [reflexivity|].
  apply remove_master_model_between; [reflexivity|].
  exists 1, 3, ("export interface _Master_ {" +:+ posix_linesep),
    ("}" +:+ posix_linesep).
  split; [lia|]. split; [vm_compute; reflexivity|]. split; [right; reflexivity|].
  split; [vm_compute; reflexivity|]. right; reflexivity.
Defined.

(** The file of that run: the banner and the interface of [Foo]. *)
Lemma remove_master_model_generated :
  remove_master_model_from_output posix_linesep "out.ts" {["out.ts" := generated_ts]}
  = ({["out.ts" :=
         "/* tslint:disable */" +:+ posix_linesep +:+
         "export interface Foo {" +:+ posix_linesep +:+
         "  a: number;" +:+ posix_linesep +:+
         "}" +:+ posix_linesep]},
     Returned).
Proof. vm_compute; reflexivity. Qed.

(** Against C4 as stated: with two start lines before the closing
    brace the first one stays in the file, where the specification has
    the file empty. *)
Lemma remove_master_keeps_first_start :
  remove_master_model_from_output posix_linesep "out.ts" {["out.ts" := two_starts_ts]}
  = ({["out.ts" := "export interface _Master_ {" +:+ posix_linesep]}, Returned) ∧
  ¬ removes_first_block posix_linesep "out.ts" {["out.ts" := two_starts_ts]}.
Proof.
  assert (remove_master_model_from_output posix_linesep "out.ts"
            {["out.ts" := two_starts_ts]}
          = ({["out.ts" := "export interface _Master_ {" +:+ posix_linesep]}, Returned))
    as Hrun by (vm_compute; reflexivity).
  split; [exact Hrun|]. intros Hclaim.
  assert (remove_master_model_from_output posix_linesep "out.ts"
            {["out.ts" := two_starts_ts]}
          = (<["out.ts" := writelines posix_linesep ([] ++ [])]>
               {["out.ts" := two_starts_ts]}, Returned)) as Hspec.
  { apply (Hclaim two_starts_ts []
             ("export interface _Master_ {" +:+ posix_linesep)
             ["export interface _Master_ {" +:+ posix_linesep]
             ("}" +:+ posix_linesep) []).
    - reflexivity.
    - vm_compute; reflexivity.
    - constructor.
    - right; reflexivity.
    - apply (bool_decide_unpack _); vm_compute; exact I.
    - right; reflexivity. }
  rewrite Hrun in Hspec.
  apply (f_equal (λ r, r.1 !! "out.ts")) in Hspec.
  vm_compute in Hspec. discriminate Hspec.
Qed.
End OutputInstances.

(** * Further properties of the cleanup hook *)

Section CleanSchemaMore.
Import Schema.
Implicit Types (schema props : gmap string json) (model : Model).

(** The three ways the hook ends. It raises inside the loop exactly when
    the schema has a ["properties"] key that holds something other than
    a dict, or a dict one of whose entries is not a dict. Past the loop
    it raises [AttributeError] exactly when [model.Config] has no
    [extra], and returns exactly when it has one. *)
Theorem clean_schema_raises_iff schema model :
  (clean_schema schema model = None ↔
   ∃ value, schema !! "properties" = Some value ∧
     (¬ is_dict value ∨
      ∃ props name prop,
        value = JObj props ∧ props !! name = Some prop ∧ ¬ is_dict prop)) ∧
  ((∃ schema', clean_schema schema model = Some (schema', RaisedAttributeError)) ↔
   schema_object schema ∧ extra (Config model) = None) ∧
  ((∃ schema', clean_schema schema model = Some (schema', Returned)) ↔
   schema_object schema ∧ is_Some (extra (Config model))).
Proof.
  split; [|split].
  - rewrite eq_None_not_Some, clean_schema_loop_iff. unfold schema_object.
    destruct (schema !! "properties") as [value|]; [|split; [tauto|by intros (? & ? & _)]].
    split.
    + intros Hnot. exists value. split; [done|].
      destruct value as [| | | | |props]; try (left; tauto). right.
      apply map_not_Forall in Hnot as (name & prop & Hprop & Hdict); [|apply _].
      by exists props, name, prop.
    + intros (? & [= <-] & [Hnot|(props & name & prop & -> & Hprop & Hdict)]).
      * by destruct value.
      * intros Hall. by apply Hdict, (Hall name).
  - split.
    + intros [schema' Hrun].
      assert (schema_object schema) as Hobj
        by (apply (proj1 (clean_schema_loop_iff schema model)); by eexists).
      split; [done|].
      destruct (clean_schema_lookup schema model Hobj) as (schema1 & Hrun1 & _).
      rewrite Hrun in Hrun1. injection Hrun1 as _ Hend. unfold hook_outcome in Hend.
      by destruct (extra (Config model)).
    + intros [Hobj Hextra].
      destruct (clean_schema_lookup schema model Hobj) as (schema1 & Hrun1 & _).
      exists schema1. unfold hook_outcome in Hrun1. by rewrite Hextra in Hrun1.
  - split.
    + intros [schema' Hrun].
      assert (schema_object schema) as Hobj
        by (apply (proj1 (clean_schema_loop_iff schema model)); by eexists).
      split; [done|].
      destruct (clean_schema_lookup schema model Hobj) as (schema1 & Hrun1 & _).
      rewrite Hrun in Hrun1. injection Hrun1 as _ Hend. unfold hook_outcome in Hend.
      by destruct (extra (Config model)).
    + intros [Hobj [policy Hextra]].
      destruct (clean_schema_lookup schema model Hobj) as (schema1 & Hrun1 & _).
      exists schema1. unfold hook_outcome in Hrun1. by rewrite Hextra in Hrun1.
Qed.

(** On a schema object, whether the call returns or raises at
    [model.Config.extra], the schema it leaves has the top-level keys it
    had, and one more, ["additionalProperties"], exactly when
    [model.Config] has an [extra] other than [allow]; it never creates
    ["properties"]. *)
Theorem clean_schema_keys schema model :
  schema_object schema →
  ∃ schema', clean_schema schema model = Some (schema', hook_outcome model) ∧
    dom schema' =
      if decide (sets_additionalProperties model)
      then {["additionalProperties"]} ∪ dom schema
      else dom schema.
Proof.
  intros Hobj.
  destruct (clean_schema_lookup schema model Hobj) as (schema' & Hrun & Hkeys).
  exists schema'. split; [done|]. apply set_eq. intros key.
  rewrite elem_of_dom, Hkeys.
  destruct (decide (sets_additionalProperties model)) as [Hsets|Hsets].
  - rewrite elem_of_union, elem_of_singleton, elem_of_dom.
    destruct (decide (key = "additionalProperties")) as [->|Hkey].
    + rewrite decide_True by done. split; [by left|by eexists].
    + rewrite decide_False by tauto.
      destruct (decide (key = "properties")); rewrite ?fmap_is_Some; tauto.
  - rewrite decide_False by tauto. rewrite elem_of_dom.
    destruct (decide (key = "properties")); by rewrite ?fmap_is_Some.
Qed.

(** What the hook does to ["additionalProperties"] on a schema object:
    under a [Config] whose [extra] is [allow] it leaves the key as it
    was and returns; under a [Config] with any other [extra] it sets the
    key to [false] and returns; under a [Config] without [extra] it
    raises [AttributeError] and leaves the key as it was. *)
Theorem clean_schema_policy schema model :
  schema_object schema →
  ∃ schema', clean_schema schema model = Some (schema', hook_outcome model) ∧
    (extra (Config model) = Some allow →
       hook_outcome model = Returned ∧
       schema' !! "additionalProperties" = schema !! "additionalProperties") ∧
    (∀ policy, extra (Config model) = Some policy → policy ≠ allow →
       hook_outcome model = Returned ∧
       schema' !! "additionalProperties" = Some (JBool false)) ∧
    (extra (Config model) = None →
       hook_outcome model = RaisedAttributeError ∧
       schema' !! "additionalProperties" = schema !! "additionalProperties").
Proof.
  intros Hobj.
  destruct (clean_schema_lookup schema model Hobj) as (schema' & Hrun & Hkeys).
  exists schema'. split; [done|]. rewrite Hkeys. split; [|split].
  - intros Hextra. split; [unfold hook_outcome; by rewrite Hextra|].
    rewrite decide_False; [done|].
    unfold sets_additionalProperties. rewrite Hextra. tauto.
  - intros policy Hextra Hpolicy. split; [unfold hook_outcome; by rewrite Hextra|].
    rewrite decide_True; [done|].
    unfold sets_additionalProperties. by rewrite Hextra.
  - intros Hextra. split; [unfold hook_outcome; by rewrite Hextra|].
    rewrite decide_False; [done|].
    unfold sets_additionalProperties. rewrite Hextra. tauto.
Qed.
End CleanSchemaMore.

Section CleanSchemaMoreInstances.
Import Schema.

Lemma clean_schema_keys_Foo :
  schema_object Foo_schema ∧
  ∃ schema', clean_schema Foo_schema Foo = Some (schema', hook_outcome Foo) ∧
    dom schema' =
      if decide (sets_additionalProperties Foo)
      then {["additionalProperties"]} ∪ dom Foo_schema
      else dom Foo_schema.
Proof.
  assert (schema_object Foo_schema) as Hobj
    by (apply (bool_decide_unpack _); vm_compute; exact I).
  split; [exact Hobj|]. exact (clean_schema_keys Foo_schema Foo Hobj).
Defined.

Lemma clean_schema_policy_OrmFoo :
  schema_object Foo_schema ∧
  ∃ schema', clean_schema Foo_schema OrmFoo = Some (schema', hook_outcome OrmFoo) ∧
    (extra (Config OrmFoo) = Some allow →
       hook_outcome OrmFoo = Returned ∧
       schema' !! "additionalProperties" = Foo_schema !! "additionalProperties") ∧
    (∀ policy, extra (Config OrmFoo) = Some policy → policy ≠ allow →
       hook_outcome OrmFoo = Returned ∧
       schema' !! "additionalProperties" = Some (JBool false)) ∧
    (extra (Config OrmFoo) = None →
       hook_outcome OrmFoo = RaisedAttributeError ∧
       schema' !! "additionalProperties" = Foo_schema !! "additionalProperties").
Proof.
  assert (schema_object Foo_schema) as Hobj
    by (apply (bool_decide_unpack _); vm_compute; exact I).
  split; [exact Hobj|]. exact (clean_schema_policy Foo_schema OrmFoo Hobj).
Defined.
End CleanSchemaMoreInstances.

(** * Further properties of model discovery *)

Section DiscoveryMore.
Import Discovery.
Context (h : gmap loc pyobj) (BaseModel : loc).
Implicit Types (obj module sub model root : loc) (members : list (string * loc)).


Lemma startswith_under_private module_name rest :
  startswith module_name "_" = true →
  startswith (module_name +:+ "." +:+ rest) "_" = true.
Proof.
  rewrite !startswith_app. intros [tail ->].
  exists (tail +:+ "." +:+ rest). by rewrite string_app_assoc.
Qed.

(** The modules the recursion visits bear the root's name or a name that
    extends it after a dot. *)
Lemma visited_name root root_name root_members m :
  h !! root = Some (PyModule root_name root_members) →
  visited h root m →
  ∃ name members,
    h !! m = Some (PyModule name members) ∧
    (name = root_name ∨ ∃ rest, name = root_name +:+ "." +:+ rest).
Proof.
  intros Hroot. induction 1 as [|module module_name members key sub _ IH Hmod Hin Hsub].
  - exists root_name, root_members. split; [done|by left].
  - apply is_submodule_store in Hsub as (name & sub_members & rest & Hsubmod & _ & ->).
    exists (module_name +:+ "." +:+ rest), sub_members. split; [done|]. right.
    destruct IH as (name' & members' & Hmod' & Hname). rewrite Hmod in Hmod'.
    injection Hmod' as <- <-. destruct Hname as [->|[rest' ->]].
    + by exists rest.
    + exists (rest' +:+ "." +:+ rest). by rewrite !string_app_assoc.
Qed.

(** Whatever a module binds, discovery returns classes only, never
    [BaseModel] itself, never a class whose [__name__] starts with an
    underscore, and only classes that have [BaseModel] among their
    ancestors. *)
Theorem discover_only_models root models model :
  discover h BaseModel root = Some models →
  model ∈ models →
  ∃ name ancestors,
    h !! model = Some (PyClass name ancestors) ∧
    (∀ rest, name ≠ "_" +:+ rest) ∧
    BaseModel ∈ ancestors ∧
    model ≠ BaseModel.
Proof.
  intros Hrun Hin. apply (extract_members _ _ _ _ _ Hrun) in Hin
    as (module & module_name & members & key & _ & _ & _ & Hmodel).
  apply is_pydantic_model_store in Hmodel as (name & ancestors & Hcls & Hname & Hsub & Hne).
  exists name, ancestors. split; [done|]. split; [|split; [|done]].
  - intros rest ->. by rewrite (proj2 (startswith_app _ _)) in Hname by eauto.
  - by destruct Hsub.
Qed.

(** Discovery stays in the namespace of the root: every Model it returns
    is bound in the root module or in a module whose [__name__] is the
    root's name followed by a dot and more, however the modules import
    one another. *)
Theorem discover_within_namespace root root_name root_members models model :
  h !! root = Some (PyModule root_name root_members) →
  discover h BaseModel root = Some models →
  model ∈ models →
  ∃ module name members key,
    h !! module = Some (PyModule name members) ∧
    (key, model) ∈ members ∧
    (name = root_name ∨ ∃ rest, name = root_name +:+ "." +:+ rest).
Proof.
  intros Hroot Hrun Hin. apply (extract_members _ _ _ _ _ Hrun) in Hin
    as (module & module_name & members & key & Hvis & Hmod & Hbound & _).
  destruct (visited_name _ _ _ _ Hroot Hvis) as (name & members' & Hmod' & Hname).
  rewrite Hmod in Hmod'. injection Hmod' as <- <-.
  by exists module, module_name, members, key.
Qed.

(** A module whose own [__name__] starts with an underscore has no
    submodule that passes [not_private], the test being made on the full
    name: discovery returns the Models of the module itself and goes no
    deeper. *)
Theorem discover_private_root root name members :
  h !! root = Some (PyModule name members) →
  startswith name "_" = true →
  submodules h name members = [] ∧
  discover h BaseModel root = Some (direct_models h BaseModel members).
Proof.
  intros Hroot Hprivate.
  assert (submodules h name members = []) as Hnone.
  { apply elem_of_nil_inv. intros sub Hsub.
    apply getmembers_values in Hsub as (key & _ & Hsub).
    apply is_submodule_store in Hsub as (name' & sub_members & rest & _ & Hpublic & ->).
    by rewrite (startswith_under_private _ _ Hprivate) in Hpublic. }
  split; [done|]. unfold discover. simpl. rewrite Hroot, Hnone. simpl.
  by rewrite app_nil_r.
Qed.

(** The order of the list: the Models of the module itself, in the order
    of their names in its namespace, then the list of each submodule the
    call recurses into, in the order of the submodules' names. *)
Theorem discover_order root name members :
  h !! root = Some (PyModule name members) →
  ∃ found,
    Forall2 (λ sub models, discover h BaseModel sub = Some models)
      (submodules h name members) found ∧
    discover h BaseModel root = Some (direct_models h BaseModel members ++ concat found).
Proof.
  intros Hroot.
  destruct (extract_enough_fuel h BaseModel (S (longest_name h)) root _ _ Hroot)
    as [models Hrun]; [lia|].
  unfold discover. rewrite Hrun. simpl in Hrun. rewrite Hroot in Hrun.
  destruct (mapM _ _) as [found|] eqn:Hsubs; [|done]. injection Hrun as <-.
  exists found. split; [|done]. apply mapM_Some in Hsubs.
  eapply Forall2_impl; [exact Hsubs|]. intros sub l Hsub.
  by apply (extract_discover h BaseModel (longest_name h)).
Qed.

(** A module that imports the root is no way back to it: no module the
    recursion visits recurses into the root, so the root is scanned
    once. *)
Theorem discover_never_reenters_root root root_name root_members module name members :
  h !! root = Some (PyModule root_name root_members) →
  visited h root module →
  h !! module = Some (PyModule name members) →
  root ∉ submodules h name members.
Proof.
  intros Hroot Hvis Hmod Hin.
  apply getmembers_values in Hin as (key & _ & Hsub).
  apply is_submodule_store in Hsub as (name' & sub_members & rest & Hroot' & _ & ->).
  rewrite Hroot in Hroot'. injection Hroot' as Hname _.
  destruct (visited_name _ _ _ _ Hroot Hvis) as (name' & members' & Hmod' & Hext).
  rewrite Hmod in Hmod'. injection Hmod' as <- <-.
  apply (f_equal String.length) in Hname.
  destruct Hext as [->|[rest' ->]]; rewrite !string_length_app in Hname;
    simpl in Hname; lia.
Qed.
End DiscoveryMore.

Section DiscoveryMoreInstances.
Import Discovery.

Lemma discover_only_models_pkg :
  discover reexport_store BaseModel_id pkg_id = Some [Foo_id; Foo_id] ∧
  Foo_id ∈ [Foo_id; Foo_id] ∧
  ∃ name ancestors,
    reexport_store !! Foo_id = Some (PyClass name ancestors) ∧
    (∀ rest, name ≠ "_" +:+ rest) ∧
    BaseModel_id ∈ ancestors ∧
    Foo_id ≠ BaseModel_id.
Proof.
  assert (discover reexport_store BaseModel_id pkg_id = Some [Foo_id; Foo_id])
    as Hrun by (vm_compute; reflexivity).
  assert (Foo_id ∈ [Foo_id; Foo_id]) as Hin by constructor.
  split; [exact Hrun|]. split; [exact Hin|].
  exact (discover_only_models reexport_store BaseModel_id pkg_id _ _ Hrun Hin).
Defined.

Lemma discover_within_namespace_pkg :
  reexport_store !! pkg_id
  = Some (PyModule "pkg" [("Foo", Foo_id); ("sub", pkg_sub_id)]) ∧
  discover reexport_store BaseModel_id pkg_id = Some [Foo_id; Foo_id] ∧
  Foo_id ∈ [Foo_id; Foo_id] ∧
  ∃ module name members key,
    reexport_store !! module = Some (PyModule name members) ∧
    (key, Foo_id) ∈ members ∧
    (name = "pkg" ∨ ∃ rest, name = "pkg" +:+ "." +:+ rest).
Proof.
  assert (reexport_store !! pkg_id
          = Some (PyModule "pkg" [("Foo", Foo_id); ("sub", pkg_sub_id)]))
    as Hroot by (vm_compute; reflexivity).
  assert (discover reexport_store BaseModel_id pkg_id = Some [Foo_id; Foo_id])
    as Hrun by (vm_compute; reflexivity).
  assert (Foo_id ∈ [Foo_id; Foo_id]) as Hin by constructor.
  split; [exact Hroot|]. split; [exact Hrun|]. split; [exact Hin|].
  exact (discover_within_namespace reexport_store BaseModel_id pkg_id _ _ _ _
           Hroot Hrun Hin).
Defined.

Lemma discover_private_root_pkg :
  private_root_store !! pkg_id
  = Some (PyModule "_pkg"
            [("BaseModel", BaseModel_id); ("Foo", Foo_id); ("sub", pkg_sub_id)]) ∧
  startswith "_pkg" "_" = true ∧
  submodules private_root_store "_pkg"
    [("BaseModel", BaseModel_id); ("Foo", Foo_id); ("sub", pkg_sub_id)] = [] ∧
  discover private_root_store BaseModel_id pkg_id
  = Some (direct_models private_root_store BaseModel_id
            [("BaseModel", BaseModel_id); ("Foo", Foo_id); ("sub", pkg_sub_id)]).
Proof.
  assert (private_root_store !! pkg_id
          = Some (PyModule "_pkg"
                    [("BaseModel", BaseModel_id); ("Foo", Foo_id); ("sub", pkg_sub_id)]))
    as Hroot by (vm_compute; reflexivity).
  assert (startswith "_pkg" "_" = true) as Hprivate by (vm_compute; reflexivity).
  split; [exact Hroot|]. split; [exact Hprivate|].
  exact (discover_private_root private_root_store BaseModel_id pkg_id _ _ Hroot Hprivate).
Defined.

(** In [_pkg], the model of [_pkg.sub] is not discovered. *)
Lemma discover_private_root_Foo :
  discover private_root_store BaseModel_id pkg_id = Some [Foo_id].
Proof. vm_compute; reflexivity. Qed.


(** The model of [pkg._private] is discovered from [pkg]. *)
Lemma discover_private_sub_B :
  discover private_sub_store BaseModel_id pkg_id = Some [B_id].
Proof. vm_compute; reflexivity. Qed.
Lemma discover_order_pkg :
  sibling_store !! pkg_id = Some (PyModule "pkg" [("a", pkg_a_id); ("b", pkg_b_id)]) ∧
  ∃ found,
    Forall2 (λ sub models, discover sibling_store BaseModel_id sub = Some models)
      (submodules sibling_store "pkg" [("a", pkg_a_id); ("b", pkg_b_id)]) found ∧
    discover sibling_store BaseModel_id pkg_id
    = Some (direct_models sibling_store BaseModel_id [("a", pkg_a_id); ("b", pkg_b_id)]
              ++ concat found).
Proof.
  assert (sibling_store !! pkg_id
          = Some (PyModule "pkg" [("a", pkg_a_id); ("b", pkg_b_id)]))
    as Hroot by (vm_compute; reflexivity).
  split; [exact Hroot|].
  exact (discover_order sibling_store BaseModel_id pkg_id _ _ Hroot).
Defined.

Lemma discover_never_reenters_root_pkg :
  cyclic_store !! pkg_id = Some (PyModule "pkg" [("a", pkg_a_id); ("b", pkg_b_id)]) ∧
  visited cyclic_store pkg_id pkg_a_id ∧
  cyclic_store !! pkg_a_id
  = Some (PyModule "pkg.a" [("b", pkg_b_id); ("pkg", pkg_id)]) ∧
  pkg_id ∉ submodules cyclic_store "pkg.a" [("b", pkg_b_id); ("pkg", pkg_id)].
Proof.
  assert (cyclic_store !! pkg_id
          = Some (PyModule "pkg" [("a", pkg_a_id); ("b", pkg_b_id)]))
    as Hroot by (vm_compute; reflexivity).
  assert (visited cyclic_store pkg_id pkg_a_id) as Hvis.
  { apply (visited_sub _ _ pkg_id "pkg" [("a", pkg_a_id); ("b", pkg_b_id)] "a");
      [constructor|exact Hroot|constructor|vm_compute; reflexivity]. }
  assert (cyclic_store !! pkg_a_id
          = Some (PyModule "pkg.a" [("b", pkg_b_id); ("pkg", pkg_id)]))
    as Hmod by (vm_compute; reflexivity).
  split; [exact Hroot|]. split; [exact Hvis|]. split; [exact Hmod|].
  exact (discover_never_reenters_root cyclic_store pkg_id _ _ pkg_a_id _ _
           Hroot Hvis Hmod).
Defined.

(** With the imports going round, discovery returns [B] once. *)
Lemma discover_cyclic_B :
  discover cyclic_store BaseModel_id pkg_id = Some [B_id].
Proof. vm_compute; reflexivity. Qed.
End DiscoveryMoreInstances.

(** * Further properties of the synthesized container *)

Section ContainerMore.
Import Discovery Synthesis.
Context (h : gmap loc pyobj) (BaseModel : loc).
Implicit Types (models : list loc) (name key : string).

Lemma dict_setitem_fresh {V} key (value : V) d :
  key ∉ d.*1 → dict_setitem key value d = d ++ [(key, value)].
Proof.
  induction d as [|[k v] d IH]; simpl; [done|].
  rewrite not_elem_of_cons. intros [Hne Hfresh].
  rewrite decide_False by done. by rewrite IH.
Qed.

Lemma isclass_dunder_name m :
  isclass h m = true → dunder_name h m = Some (getattr_name h m).
Proof.
  unfold getattr_name, isclass, dunder_name. by destruct (deref h m).
Qed.

Lemma field_definitions_in_order models :
  (∀ m, m ∈ models → isclass h m = true) →
  NoDup (dunder_name h <$> models) →
  field_definitions h models
  = Some ((λ m, (getattr_name h m, (m, Ellipsis))) <$> models).
Proof.
  unfold field_definitions.
  induction models as [|m models IH] using rev_ind; intros Hclasses Hnames; [done|].
  rewrite fmap_app in Hnames. apply NoDup_app in Hnames as (Hnames & Hfresh & _).
  rewrite foldl_snoc, IH; [|intros m' Hm'; apply Hclasses, elem_of_app; by left|done].
  assert (isclass h m = true) as Hclass
    by (apply Hclasses, elem_of_app; right; constructor).
  simpl. rewrite (isclass_dunder_name _ Hclass). simpl.
  rewrite dict_setitem_fresh, fmap_snoc; [done|].
  rewrite <-list_fmap_compose. intros (m' & Hname & Hm')%list_elem_of_fmap.
  apply (Hfresh (dunder_name h m')); [by apply list_elem_of_fmap_2|].
  simpl in Hname. rewrite (isclass_dunder_name m'), <-Hname, <-isclass_dunder_name;
    [constructor|done|].
  apply Hclasses, elem_of_app. by left.
Qed.

(** When the Models of the list are classes with pairwise distinct
    names, the container has exactly one required field per Model, in
    the order of the list, named by the Model's [__name__] and typed as
    the Model. *)
Theorem master_model_in_order models :
  (∀ m, m ∈ models → isclass h m = true) →
  NoDup (dunder_name h <$> models) →
  master_model h models
  = Some {| container_name := "_Master_";
            container_fields :=
              (λ m, {| field_name := getattr_name h m; field_type := m;
                       field_required := true |}) <$> models |}.
Proof.
  intros Hclasses Hnames. unfold master_model, create_model.
  rewrite (field_definitions_in_order _ Hclasses Hnames). simpl.
  by rewrite <-list_fmap_compose.
Qed.

(** From discovery to the container: on every module, discovery returns
    and the container is built from its result without raising; the
    names of the container's fields are exactly the [__name__]s of the
    reachable Models, and every field is required and typed as a
    reachable Model of that name. *)
Theorem master_model_of_discovery root :
  ismodule h root = true →
  ∃ models master,
    discover h BaseModel root = Some models ∧
    master_model h models = Some master ∧
    (∀ name, name ∈ field_name <$> container_fields master ↔
       ∃ model, reachable_model h BaseModel root model ∧
         dunder_name h model = Some name) ∧
    (∀ f, f ∈ container_fields master →
       field_required f = true ∧
       reachable_model h BaseModel root (field_type f) ∧
       dunder_name h (field_type f) = Some (field_name f)).
Proof.
  unfold ismodule, deref. intros Hroot.
  destruct (h !! root) as [[root_name members| |]|] eqn:Hmod; try done.
  destruct (extract_enough_fuel h BaseModel (S (longest_name h)) root _ _ Hmod)
    as [models Hrun]; [lia|].
  pose proof (extract_members h BaseModel _ _ _ Hrun) as Hreach.
  assert (∀ m, m ∈ models → isclass h m = true) as Hclasses.
  { intros m (module & module_name & ms & key & _ & _ & _ & Hmodel)%Hreach.
    apply is_pydantic_model_store in Hmodel as (name & ancestors & Hcls & _).
    unfold isclass, deref. by rewrite Hcls. }
  destruct (field_definitions_lookup h models Hclasses) as (d & Hd & Hnodup & Hget).
  exists models, (create_model "_Master_" d). split; [done|].
  unfold master_model. rewrite Hd. split; [done|]. simpl. split.
  - intros name. rewrite <-list_fmap_compose. split.
    + intros ([key [m dflt]] & -> & Hin)%list_elem_of_fmap. simpl.
      apply (dict_get_elem_of _ _ _ Hnodup) in Hin. rewrite Hget in Hin.
      destruct (last_named h key models) as [m'|] eqn:Hlast; [|done].
      apply last_named_elem_of in Hlast as [Hm' Hname].
      exists m'. split; [by apply Hreach|done].
    + intros (model & Hmodel%Hreach & Hname).
      destruct (last_named_is_Some h name models model Hmodel Hname) as [m' Hlast].
      apply list_elem_of_fmap. exists (name, (m', Ellipsis)). split; [done|].
      apply (dict_get_elem_of _ _ _ Hnodup). by rewrite Hget, Hlast.
  - intros f ([key [m dflt]] & -> & Hin)%list_elem_of_fmap. simpl.
    apply (dict_get_elem_of _ _ _ Hnodup) in Hin. rewrite Hget in Hin.
    destruct (last_named h key models) as [m'|] eqn:Hlast; [|done].
    injection Hin as <- <-.
    apply last_named_elem_of in Hlast as [Hm' Hname].
    split; [done|]. split; [by apply Hreach|done].
Qed.
End ContainerMore.

Section ContainerMoreInstances.
Import Discovery Synthesis.

Lemma master_model_in_order_Foo_B :
  (∀ m, m ∈ [Foo_id; B_id] → isclass private_root_store m = true) ∧
  NoDup (dunder_name private_root_store <$> [Foo_id; B_id]) ∧
  master_model private_root_store [Foo_id; B_id]
  = Some {| container_name := "_Master_";
            container_fields :=
              (λ m, {| field_name := getattr_name private_root_store m;
                       field_type := m; field_required := true |})
              <$> [Foo_id; B_id] |}.
Proof.
  assert (∀ m, m ∈ [Foo_id; B_id] → isclass private_root_store m = true) as Hclasses.
  { intros m [->|[->|[]%elem_of_nil]%elem_of_cons]%elem_of_cons; vm_compute; reflexivity. }
  assert (NoDup (dunder_name private_root_store <$> [Foo_id; B_id])) as Hnames
    by (apply (bool_decide_unpack _); vm_compute; exact I).
  split; [exact Hclasses|]. split; [exact Hnames|].
  exact (master_model_in_order private_root_store [Foo_id; B_id] Hclasses Hnames).
Defined.

Lemma master_model_of_discovery_pkg :
  ismodule reexport_store pkg_id = true ∧
  ∃ models master,
    discover reexport_store BaseModel_id pkg_id = Some models ∧
    master_model reexport_store models = Some master ∧
    (∀ name, name ∈ field_name <$> container_fields master ↔
       ∃ model, reachable_model reexport_store BaseModel_id pkg_id model ∧
         dunder_name reexport_store model = Some name) ∧
    (∀ f, f ∈ container_fields master →
       field_required f = true ∧
       reachable_model reexport_store BaseModel_id pkg_id (field_type f) ∧
       dunder_name reexport_store (field_type f) = Some (field_name f)).
Proof.
  assert (ismodule reexport_store pkg_id = true) as Hroot by (vm_compute; reflexivity).
  split; [exact Hroot|].
  exact (master_model_of_discovery reexport_store BaseModel_id pkg_id Hroot).
Defined.
End ContainerMoreInstances.

(** * Further properties of the container removal *)

Section OutputMore.
Import Output.
Implicit Types (line content body raw text : string) (lines : list string).

(** Where the loop sets [end]: at a closing brace, and only once a start
    line has been seen. *)
Lemma scan_end lines i start start' e :
  scan lines i start = (start', Some e) →
  ∃ k line,
    lines !! k = Some line ∧ rstrip_crlf line = master_end ∧
    (is_Some start ∨
     ∃ k' line', k' < k ∧ lines !! k' = Some line' ∧ rstrip_crlf line' = master_start).
Proof.
  revert i start. induction lines as [|line lines IH]; intros i start; simpl; [done|].
  destruct (decide (rstrip_crlf line = master_start)) as [Hstart|Hstart].
  - intros (k & line_e & Hk & He & _)%IH.
    exists (S k), line_e. split; [done|]. split; [done|]. right.
    exists 0, line. split; [lia|done].
  - destruct (decide (is_Some start ∧ rstrip_crlf line = master_end)) as [[Hsome He]|_].
    + intros _. exists 0, line. split; [done|]. split; [done|]. by left.
    + intros (k & line_e & Hk & He & Hseen)%IH.
      exists (S k), line_e. split; [done|]. split; [done|].
      destruct Hseen as [?|(k' & line' & Hlt & Hk' & Hs)]; [by left|right].
      exists (S k'), line'. split; [lia|done].
Qed.

Lemma new_lines_Some_inv lines new :
  new_lines lines = Some new →
  ∃ i j s e,
    i < j ∧ lines !! i = Some s ∧ rstrip_crlf s = master_start ∧
    lines !! j = Some e ∧ rstrip_crlf e = master_end.
Proof.
  unfold new_lines. destruct (scan lines 0 None) as [start [e_index|]] eqn:Hscan; [|done].
  intros _. apply scan_end in Hscan as (j & e & Hj & He & [[? [=]]|(i & s & Hij & Hi & Hs)]).
  by exists i, j, s, e.
Qed.

(** The call returns exactly when, among the lines of the file, a
    closing brace comes after a start line; in every other case it
    raises [TypeError] and the file system is as it was. A start line
    without a closing brace after it is such a case. *)
Theorem remove_master_model_returns_iff linesep output fs raw :
  fs !! output = Some raw →
  ((remove_master_model_from_output linesep output fs).2 = Returned ↔
   ∃ i j s e, i < j ∧
     readlines (universal_newlines raw) !! i = Some s ∧ line_is master_start s ∧
     readlines (universal_newlines raw) !! j = Some e ∧ line_is master_end e) ∧
  ((remove_master_model_from_output linesep output fs).2 ≠ Returned →
   remove_master_model_from_output linesep output fs = (fs, Raised TypeError)).
Proof.
  intros Hraw.
  destruct (new_lines (readlines (universal_newlines raw))) as [new|] eqn:Hnew.
  - unfold remove_master_model_from_output. rewrite Hraw, Hnew. simpl.
    split; [|done]. split; [intros _|done].
    apply new_lines_Some_inv in Hnew as (i & j & s & e & Hij & Hi & Hs & Hj & He).
    exists i, j, s, e. split; [done|]. split; [done|].
    split; [|split; [done|]].
    + apply (rstrip_crlf_line_is raw); [apply master_start_plain| |done].
      by eapply list_elem_of_lookup_2.
    + apply (rstrip_crlf_line_is raw); [apply master_end_plain| |done].
      by eapply list_elem_of_lookup_2.
  - assert (remove_master_model_from_output linesep output fs = (fs, Raised TypeError))
      as Hraise by (unfold remove_master_model_from_output; by rewrite Hraw, Hnew).
    rewrite Hraise. simpl. split; [|done]. split; [done|].
    intros (i & j & s1 & e1 & Hij & Hi & Hs1 & Hj & He1).
    destruct (start_then_end_split _ i j s1 e1 Hij Hi Hs1 Hj He1)
      as (before & stale & s & block & e & after
          & Hlines & Hbefore & Hstale & _ & Hs & Hblock & He).
    pose proof (remove_master_model_split linesep output fs raw before stale s block
                  e after Hraw Hlines Hbefore Hstale Hs Hblock He) as Hreturn.
    rewrite Hraise in Hreturn. discriminate Hreturn.
Qed.
Lemma string_app_empty_r (s : string) : s +:+ EmptyString = s.
Proof. induction s as [|c s IH]; [done|]. by rewrite string_app_cons, IH. Qed.

Lemma string_concat_cons line lines :
  String.concat "" (line :: lines) = line +:+ String.concat "" lines.
Proof. destruct lines; simpl; [by rewrite string_app_empty_r|done]. Qed.

Lemma chars_Forall_app (P : ascii → Prop) (s t : string) :
  chars_Forall P (s +:+ t) ↔ chars_Forall P s ∧ chars_Forall P t.
Proof.
  induction s as [|c s IH]; [simpl; tauto|].
  rewrite string_app_cons. simpl. rewrite IH. tauto.
Qed.

Lemma concat_chars (P : ascii → Prop) lines :
  Forall (chars_Forall P) lines → chars_Forall P (String.concat "" lines).
Proof.
  induction 1 as [|line lines Hline _ IH]; [done|].
  rewrite string_concat_cons. by apply chars_Forall_app.
Qed.

Lemma readlines_chars (P : ascii → Prop) text :
  chars_Forall P text → Forall (chars_Forall P) (readlines text).
Proof.
  induction text as [|c text IH]; [constructor|]. intros [Hc Htext]. simpl.
  specialize (IH Htext). destruct (decide (c = LF)).
  - constructor; [by split|done].
  - destruct (readlines text) as [|line lines].
    + constructor; [by split|done].
    + apply Forall_cons in IH as [Hline Hlines]. constructor; [by split|done].
Qed.

(** The lines kept are lines read. *)
Lemma new_lines_Forall (P : string → Prop) lines new :
  new_lines lines = Some new → Forall P lines → Forall P new.
Proof.
  unfold new_lines. destruct (scan lines 0 None) as [start [e|]]; [|done].
  simpl. intros [= <-] Hlines. apply Forall_app. split.
  - destruct start; [by apply Forall_take|done].
  - by apply Forall_drop.
Qed.

Lemma write_newlines_posix text : write_newlines posix_linesep text = text.
Proof.
  induction text as [|c text IH]; [done|]. simpl.
  destruct (decide (c = LF)) as [->|_]; by rewrite IH.
Qed.

(** With the line separator of POSIX, the file a call that returns
    leaves holds no CR: the line ends CR LF and CR of the kept lines have
    become LF. *)
Theorem remove_master_model_posix_no_CR output fs fs' :
  remove_master_model_from_output posix_linesep output fs = (fs', Returned) →
  ∃ text, fs' !! output = Some text ∧ chars_Forall (λ c, c ≠ CR) text.
Proof.
  unfold remove_master_model_from_output.
  destruct (fs !! output) as [raw|]; [|done].
  destruct (new_lines _) as [new|] eqn:Hnew; [|done]. intros [= <-].
  exists (writelines posix_linesep new). split; [apply lookup_insert_eq|].
  unfold writelines. rewrite write_newlines_posix. apply concat_chars.
  apply (new_lines_Forall _ _ _ Hnew), readlines_chars, universal_newlines_no_CR.
Qed.

Lemma universal_newlines_id text :
  chars_Forall (λ c, c ≠ CR) text → universal_newlines text = text.
Proof.
  induction text as [|c text IH]; [done|]. intros [Hc Htext]. simpl.
  rewrite decide_False by done. by rewrite IH.
Qed.

(** What is written with the line separator of POSIX or of Windows reads
    back as it was. *)
Lemma universal_write_newlines linesep text :
  linesep = posix_linesep ∨ linesep = windows_linesep →
  chars_Forall (λ c, c ≠ CR) text →
  universal_newlines (write_newlines linesep text) = text.
Proof.
  intros [->| ->].
  - rewrite write_newlines_posix. apply universal_newlines_id.
  - induction text as [|c text IH]; [done|]. intros [Hc Htext]. simpl.
    destruct (decide (c = LF)) as [->|Hlf].
    + change (windows_linesep +:+ ?t) with (String CR (String LF t)).
      simpl. by rewrite IH.
    + simpl. rewrite decide_False by done. by rewrite IH.
Qed.

Lemma cut_cons_inv line lines :
  cut (line :: lines) →
  (unterminated line ∧ lines = []) ∨ (terminated line ∧ cut lines).
Proof. inversion 1; subst; auto. Qed.

Lemma readlines_cut text : cut (readlines text).
Proof.
  induction text as [|c text IH]; [constructor|]. simpl.
  destruct (decide (c = LF)) as [->|Hlf].
  - apply cut_cons; [|done]. by exists EmptyString.
  - destruct (readlines text) as [|line lines].
    + apply cut_last. by repeat split.
    + apply cut_cons_inv in IH as [[[Hline Hne] ->]|[(body & Hbody & ->) Hlines]].
      * apply cut_last. by repeat split.
      * apply cut_cons; [|done]. exists (String c body). by repeat split.
Qed.

Lemma readlines_terminated body rest :
  chars_Forall (λ c, c ≠ LF) body →
  readlines (body +:+ String LF rest)
  = (body +:+ String LF EmptyString) :: readlines rest.
Proof.
  induction body as [|c body IH]; intros Hbody.
  - change (EmptyString +:+ ?t) with t. simpl. by destruct (decide (LF = LF)).
  - destruct Hbody as [Hc Hbody]. rewrite !string_app_cons. simpl.
    rewrite decide_False by done. by rewrite (IH Hbody).
Qed.

Lemma readlines_unterminated line : unterminated line → readlines line = [line].
Proof.
  intros [Hline Hne]. induction line as [|c line IH]; [done|].
  destruct Hline as [Hc Hline]. simpl. rewrite decide_False by done.
  destruct line as [|c' line]; [done|]. by rewrite IH.
Qed.

(** [readlines] undoes the concatenation of lines it could have cut. *)
Lemma readlines_concat lines : cut lines → readlines (String.concat "" lines) = lines.
Proof.
  induction 1 as [|line Hline|line lines (body & Hbody & ->) _ IH]; [done| |].
  - by apply readlines_unterminated.
  - rewrite string_concat_cons, string_app_assoc.
    change (String LF EmptyString +:+ ?t) with (String LF t).
    by rewrite (readlines_terminated _ _ Hbody), IH.
Qed.

Lemma cut_app_r (before after : list string) : cut (before ++ after) → cut after.
Proof.
  induction before as [|line before IH]; [done|]. simpl.
  intros [[_ Hnil]|[_ Hcut]]%cut_cons_inv; [|by apply IH].
  apply app_eq_nil in Hnil as [_ ->]. constructor.
Qed.

Lemma cut_app_l (before after : list string) :
  cut (before ++ after) → after ≠ [] → Forall terminated before.
Proof.
  intros Hcut Hafter. induction before as [|line before IH]; [constructor|].
  simpl in Hcut. apply cut_cons_inv in Hcut as [[_ Hnil]|[Hline Hcut]].
  - by apply app_eq_nil in Hnil as [_ ?].
  - constructor; [done|by apply IH].
Qed.

Lemma cut_app (before after : list string) :
  Forall terminated before → cut after → cut (before ++ after).
Proof. induction 1; [done|]. intros. apply cut_cons; auto. Qed.

(** On a file with a single start line and a closing brace after it, the
    call returns; the file it leaves reads back as the lines before the
    start line followed by the lines after the brace, none of them a
    start line; and a second call on that file raises [TypeError] and
    leaves it as the first call left it. *)
Theorem remove_master_model_twice linesep output fs raw before s block e after :
  linesep = posix_linesep ∨ linesep = windows_linesep →
  fs !! output = Some raw →
  readlines (universal_newlines raw) = before ++ s :: block ++ e :: after →
  Forall (λ line, ¬ line_is master_start line) before →
  line_is master_start s →
  Forall (λ line, ¬ line_is master_start line ∧ ¬ line_is master_end line) block →
  line_is master_end e →
  Forall (λ line, ¬ line_is master_start line) after →
  remove_master_model_from_output linesep output fs
  = (<[output := writelines linesep (before ++ after)]> fs, Returned) ∧
  readlines (universal_newlines (writelines linesep (before ++ after)))
  = before ++ after ∧
  remove_master_model_from_output linesep output
    (<[output := writelines linesep (before ++ after)]> fs)
  = (<[output := writelines linesep (before ++ after)]> fs, Raised TypeError).
Proof.
  intros Hsep Hraw Hlines Hbefore Hs Hblock He Hafter.
  assert (readlines (universal_newlines (writelines linesep (before ++ after)))
          = before ++ after) as Hback.
  { unfold writelines.
    pose proof (readlines_chars _ _ (universal_newlines_no_CR raw)) as Hchars.
    pose proof (readlines_cut (universal_newlines raw)) as Hcut.
    rewrite Hlines in Hchars, Hcut.
    apply Forall_app in Hchars as [Hchars_before Hchars_rest].
    apply Forall_cons in Hchars_rest as [_ Hchars_rest].
    apply Forall_app in Hchars_rest as [_ Hchars_rest].
    apply Forall_cons in Hchars_rest as [_ Hchars_after].
    rewrite universal_write_newlines;
      [|done|by apply concat_chars, Forall_app].
    apply readlines_concat, cut_app.
    - by apply (cut_app_l _ _ Hcut).
    - apply cut_app_r in Hcut. rewrite app_comm_cons in Hcut.
      apply cut_app_r in Hcut. by apply (cut_app_r [e]). }
  split; [|split; [done|]].
  - by apply (remove_master_model_split linesep output fs raw before [] s block e after).
  - unfold remove_master_model_from_output at 1. rewrite lookup_insert_eq, Hback.
    rewrite new_lines_without_start; [done|].
    apply (Forall_rstrip_crlf raw); [apply master_start_plain| |by apply Forall_app].
    intros line Hin. rewrite Hlines. rewrite !elem_of_app in *.
    rewrite elem_of_cons, elem_of_app, elem_of_cons. tauto.
Qed.
End OutputMore.

Section OutputMoreInstances.
Import Output.

Lemma remove_master_model_returns_iff_generated :
  ({["out.ts" := generated_ts]} : gmap string string) !! "out.ts" = Some generated_ts ∧
  ((remove_master_model_from_output posix_linesep "out.ts"
      {["out.ts" := generated_ts]}).2 = Returned ↔
   ∃ i j s e, i < j ∧
     readlines (universal_newlines generated_ts) !! i = Some s ∧
     line_is master_start s ∧
     readlines (universal_newlines generated_ts) !! j = Some e ∧
     line_is master_end e) ∧
  ((remove_master_model_from_output posix_linesep "out.ts"
      {["out.ts" := generated_ts]}).2 ≠ Returned →
   remove_master_model_from_output posix_linesep "out.ts" {["out.ts" := generated_ts]}
   = ({["out.ts" := generated_ts]}, Raised TypeError)).
Proof.
  split; [reflexivity|].
  apply remove_master_model_returns_iff. reflexivity.
Defined.

(** A start line that no closing brace follows: the call raises. *)
Lemma remove_master_model_unclosed :
  remove_master_model_from_output posix_linesep "out.ts"
    {["out.ts" := "export interface _Master_ {" +:+ posix_linesep]}
  = ({["out.ts" := "export interface _Master_ {" +:+ posix_linesep]},
     Raised TypeError).
Proof. vm_compute; reflexivity. Qed.

Lemma remove_master_model_posix_no_CR_generated :
  remove_master_model_from_output posix_linesep "out.ts"
    {["out.ts" := generated_crlf_ts]}
  = ({["out.ts" :=
         "/* tslint:disable */" +:+ posix_linesep +:+
         "export interface Foo {" +:+ posix_linesep +:+
         "  a: number;" +:+ posix_linesep +:+
         "}" +:+ posix_linesep]},
     Returned) ∧
  ∃ text,
    ({["out.ts" :=
         "/* tslint:disable */" +:+ posix_linesep +:+
         "export interface Foo {" +:+ posix_linesep +:+
         "  a: number;" +:+ posix_linesep +:+
         "}" +:+ posix_linesep]} : gmap string string) !! "out.ts" = Some text ∧
    chars_Forall (λ c, c ≠ CR) text.
Proof.
  assert (remove_master_model_from_output posix_linesep "out.ts"
            {["out.ts" := generated_crlf_ts]}
          = ({["out.ts" :=
                 "/* tslint:disable */" +:+ posix_linesep +:+
                 "export interface Foo {" +:+ posix_linesep +:+
                 "  a: number;" +:+ posix_linesep +:+
                 "}" +:+ posix_linesep]},
             Returned)) as Hrun by (vm_compute; reflexivity).
  split; [exact Hrun|].
  exact (remove_master_model_posix_no_CR "out.ts" _ _ Hrun).
Defined.

Lemma remove_master_model_twice_generated :
  readlines (universal_newlines generated_ts)
  = ["/* tslint:disable */" +:+ posix_linesep]
    ++ ("export interface _Master_ {" +:+ posix_linesep)
    :: ["  Foo: Foo;" +:+ posix_linesep]
    ++ ("}" +:+ posix_linesep)
    :: ["export interface Foo {" +:+ posix_linesep;
        "  a: number;" +:+ posix_linesep;
        "}" +:+ posix_linesep] ∧
  remove_master_model_from_output posix_linesep "out.ts" {["out.ts" := generated_ts]}
  = (<["out.ts" :=
         writelines posix_linesep
           (["/* tslint:disable */" +:+ posix_linesep]
            ++ ["export interface Foo {" +:+ posix_linesep;
                "  a: number;" +:+ posix_linesep;
                "}" +:+ posix_linesep])]>
       {["out.ts" := generated_ts]}, Returned) ∧
  readlines (universal_newlines
    (writelines posix_linesep
       (["/* tslint:disable */" +:+ posix_linesep]
        ++ ["export interface Foo {" +:+ posix_linesep;
            "  a: number;" +:+ posix_linesep;
            "}" +:+ posix_linesep])))
  = ["/* tslint:disable */" +:+ posix_linesep]
    ++ ["export interface Foo {" +:+ posix_linesep;
        "  a: number;" +:+ posix_linesep;
        "}" +:+ posix_linesep] ∧
  remove_master_model_from_output posix_linesep "out.ts"
    (<["out.ts" :=
         writelines posix_linesep
           (["/* tslint:disable */" +:+ posix_linesep]
            ++ ["export interface Foo {" +:+ posix_linesep;
                "  a: number;" +:+ posix_linesep;
                "}" +:+ posix_linesep])]>
       {["out.ts" := generated_ts]})
  = (<["out.ts" :=
         writelines posix_linesep
           (["/* tslint:disable */" +:+ posix_linesep]
            ++ ["export interface Foo {" +:+ posix_linesep;
                "  a: number;" +:+ posix_linesep;
                "}" +:+ posix_linesep])]>
       {["out.ts" := generated_ts]}, Raised TypeError).
Proof.
  assert (readlines (universal_newlines generated_ts)
    = ["/* tslint:disable */" +:+ posix_linesep]
      ++ ("export interface _Master_ {" +:+ posix_linesep)
      :: ["  Foo: Foo;" +:+ posix_linesep]
      ++ ("}" +:+ posix_linesep)
      :: ["export interface Foo {" +:+ posix_linesep;
          "  a: number;" +:+ posix_linesep;
          "}" +:+ posix_linesep]) as Hlines by (vm_compute; reflexivity).
  assert (({["out.ts" := generated_ts]} : gmap string string) !! "out.ts"
          = Some generated_ts) as Hraw by reflexivity.
  split; [exact Hlines|].
  apply (remove_master_model_twice posix_linesep "out.ts" _ generated_ts _ _ _ _ _
           (or_introl eq_refl) Hraw Hlines).
  - apply (bool_decide_unpack _); vm_compute; exact I.
  - right; reflexivity.
  - apply (bool_decide_unpack _); vm_compute; exact I.
  - right; reflexivity.
  - apply (bool_decide_unpack _); vm_compute; exact I.
Defined.
End OutputMoreInstances.
